(** * figma_mcp: the plugin dispatcher (plugin/src/code.ts) and the UI
      transport (the plugin's ui.html), embedded in Rocq.

    The plugin runs inside Figma: [figma.ui.onmessage] receives a command
    object, runs one case of a [switch] against the document and posts one
    response object.  The UI page owns the WebSocket to the MCP server and
    shuttles messages between the socket and the plugin.

    JavaScript values are embedded as the inductive [value]; a string is
    held as its UTF-8 bytes; objects keep
    their keys in insertion order, and a key bound to [undefined] is still a
    key, as it is for the [in] operator the source uses.  Code that can
    throw lives in a state-and-exception monad over the host document.
    What Figma and the browser do is outside the source: the document is a
    concrete store, and whatever the source leaves open about the host
    (refused calls, created objects, exported bytes, the clock) is a
    parameter of the development.  An awaited host call is one step, as
    the plugin handles one command to completion; what the plugin writes
    to its console is left out. *)

From Stdlib Require Import QArith DecimalString Ascii.
From stdpp Require Import base list strings.

Close Scope Q_scope.
Open Scope string_scope.
Local Set Warnings "-register-all".

(** ** JavaScript values *)

(** Numbers are the finite numbers a JSON text can denote, as rationals:
    the source never computes with them, it tests them for truthiness and
    passes them on.  [VSym] stands for a symbol such as [figma.mixed]. *)
Inductive value : Type :=
| VUndef
| VNull
| VBool (b : bool)
| VNum (q : Q)
| VStr (s : string)
| VArr (items : list value)
| VObj (fields : list (string * value))
| VSym (description : string).

Definition object := list (string * value).

(** ToBoolean. *)
Definition truthy (v : value) : bool :=
  match v with
  | VUndef | VNull => false
  | VBool b => b
  | VNum q => negb (Qnum q =? 0)%Z
  | VStr s => negb (String.eqb s "")
  | VArr _ | VObj _ | VSym _ => true
  end.

(** [a || b] *)
Definition js_or (a b : value) : value := if truthy a then a else b.

(** Own-property lookup; the first binding of a key is the live one. *)
Fixpoint lookup_field (k : string) (o : object) : option value :=
  match o with
  | [] => None
  | (k', v) :: rest => if String.eqb k k' then Some v else lookup_field k rest
  end.

(** ['k' in o] *)
Definition has_key (k : string) (o : object) : bool :=
  match lookup_field k o with Some _ => true | None => false end.

(** [o.k] on an object: a missing key reads as [undefined]. *)
Definition get_field (k : string) (o : object) : value :=
  match lookup_field k o with Some v => v | None => VUndef end.

(** [o.k = v]: overwrite in place, or append a new key. *)
Fixpoint set_field (k : string) (v : value) (o : object) : object :=
  match o with
  | [] => [(k, v)]
  | (k', v') :: rest =>
      if String.eqb k k' then (k, v) :: rest else (k', v') :: set_field k v rest
  end.

(** The rest pattern [{ a, b, ...rest }]: every key but the named ones. *)
Definition without_keys (ks : list string) (o : object) : object :=
  List.filter (fun kv => negb (existsb (String.eqb (fst kv)) ks)) o.

Definition upper_ascii (c : Ascii.ascii) : Ascii.ascii :=
  let n := Ascii.nat_of_ascii c in
  if (97 <=? n)%nat && (n <=? 122)%nat then Ascii.ascii_of_nat (n - 32) else c.

Definition is_byte (c : Ascii.ascii) (n : nat) : bool :=
  Nat.eqb (Ascii.nat_of_ascii c) n.

(** The characters of two bytes whose upper case is ASCII text: U+00DF
    (sharp s), U+0131 (dotless i) and U+017F (long s). *)
Definition upper_of_pair (c d : Ascii.ascii) : option string :=
  if is_byte c 195 && is_byte d 159 then Some "SS"
  else if is_byte c 196 && is_byte d 177 then Some "I"
  else if is_byte c 197 && is_byte d 191 then Some "S"
  else None.

(** The characters of three bytes whose upper case is ASCII text: the
    ligatures U+FB00 to U+FB06. *)
Definition upper_of_triple (c d e : Ascii.ascii) : option string :=
  if is_byte c 239 && is_byte d 172 then
    if is_byte e 128 then Some "FF"
    else if is_byte e 129 then Some "FI"
    else if is_byte e 130 then Some "FL"
    else if is_byte e 131 then Some "FFI"
    else if is_byte e 132 then Some "FFL"
    else if is_byte e 133 then Some "ST"
    else if is_byte e 134 then Some "ST"
    else None
  else None.

(** [s.toUpperCase()], for a string held as its UTF-8 bytes.  An ASCII
    letter is upper-cased, and so is each of the ten characters outside
    ASCII whose upper case is ASCII text; every other character outside
    ASCII, whose upper case is outside ASCII too, is left as it is.  The
    result is therefore JavaScript's whenever either is ASCII text, which
    is all the source asks of it: it compares the result with ASCII
    words. *)
Fixpoint toUpperCase (s : string) : string :=
  match s with
  | EmptyString => EmptyString
  | String c rest =>
      match rest with
      | String d rest2 =>
          match upper_of_pair c d with
          | Some upper => upper ++ toUpperCase rest2
          | None =>
              match rest2 with
              | String e rest3 =>
                  match upper_of_triple c d e with
                  | Some upper => upper ++ toUpperCase rest3
                  | None => String (upper_ascii c) (toUpperCase rest)
                  end
              | EmptyString => String (upper_ascii c) (toUpperCase rest)
              end
          end
      | EmptyString => String (upper_ascii c) EmptyString
      end
  end.

(** [s.startsWith(p)] *)
Definition startsWith (p s : string) : bool := String.prefix p s.

(** What is thrown: an [Error] instance, which has a [message], or any
    other value. *)
Inductive thrown : Type :=
| ThrowError (message : string)
| ThrowValue (v : value).

(** ** The host document *)

Record Node := mkNode {
  node_id : string;
  node_type : string;
  node_name : string;
  node_props : object;
  node_children : option (list nat)
}.

Record Viewport := mkViewport {
  center_x : Q;
  center_y : Q;
  zoom : Q
}.

Record PaintStyle := mkPaintStyle {
  style_id : string;
  style_name : value;
  style_description : value;
  style_paints : list value
}.

(** Nodes and styles are objects with identity.  A node is named by a
    reference into the node heap, [node_count] being the next free one; a
    style by its position among the local paint styles.  [exported]
    records the [exportAsync] calls made, [posted] the messages given to
    [figma.ui.postMessage]. *)
Record Host := mkHost {
  nodes : nat -> Node;
  node_count : nat;
  selection : list nat;
  viewport : Viewport;
  paint_styles : list PaintStyle;
  page_id : string;
  page_name : string;
  exported : list (nat * value);
  posted : list value
}.

(** The host calls of the source that change the document or may be
    refused by the host. *)
Inductive HostCall : Type :=
| CreateRectangle
| CreateText
| SetNodeProp (r : nat) (k : string) (v : value)
| ScrollAndZoomIntoView (rs : list nat)
| SetSelection (rs : list nat)
| CreatePaintStyle
| SetStyleName (s : nat) (v : value)
| SetStylePaints (s : nat) (ps : list value)
| ExportAsync (r : nat) (settings : value).

(** What the source does not determine about the host and the engine:
    which calls the host refuses and with what, the nodes and styles it
    creates, the bytes of an export, where the viewport lands, the clock,
    and the text of engine errors and of numbers. *)
Record HostApi := mkHostApi {
  host_rejects : HostCall -> Host -> option thrown;
  new_rectangle : Host -> Node;
  new_text : Host -> Node;
  new_paint_style : Host -> PaintStyle;
  export_data : nat -> value -> Host -> value;
  scrolled_viewport : list nat -> Host -> Viewport;
  now_iso : Host -> string;
  type_error_message : string -> string;
  number_to_string : Q -> string
}.

(** ** The monad of handler code *)

Inductive outcome (A : Type) : Type :=
| Returned (a : A)
| Threw (e : thrown).
Arguments Returned {A} a.
Arguments Threw {A} e.

Definition M (A : Type) : Type := Host -> Host * outcome A.

Definition ret {A} (a : A) : M A := fun h => (h, Returned a).

Definition bind {A B} (m : M A) (k : A -> M B) : M B :=
  fun h =>
    match m h with
    | (h', Returned a) => k a h'
    | (h', Threw e) => (h', Threw e)
    end.

Definition throw {A} (e : thrown) : M A := fun h => (h, Threw e).

(** [throw new Error(msg)] *)
Definition throw_error {A} (msg : string) : M A := throw (ThrowError msg).

(** [try { body } catch (e) { handler(e) }] *)
Definition try_catch {A} (body : M A) (handler : thrown -> M A) : M A :=
  fun h =>
    match body h with
    | (h', Returned a) => (h', Returned a)
    | (h', Threw e) => handler e h'
    end.

Definition read {A} (f : Host -> A) : M A := fun h => (h, Returned (f h)).

Notation "'do' x <- m ; k" := (bind m (fun x => k))
  (at level 10, x name, m at level 100, k at level 200).
Notation "m ;; k" := (bind m (fun _ => k))
  (at level 100, k at level 200, right associativity).

(** ** Host state updates *)

Definition with_node (r : nat) (n : Node) (h : Host) : Host :=
  mkHost (fun r' => if Nat.eqb r' r then n else nodes h r') (node_count h)
         (selection h) (viewport h) (paint_styles h) (page_id h) (page_name h)
         (exported h) (posted h).

Definition alloc_node (n : Node) (h : Host) : Host :=
  mkHost (fun r' => if Nat.eqb r' (node_count h) then n else nodes h r')
         (S (node_count h))
         (selection h) (viewport h) (paint_styles h) (page_id h) (page_name h)
         (exported h) (posted h).

Definition with_selection (rs : list nat) (h : Host) : Host :=
  mkHost (nodes h) (node_count h) rs (viewport h) (paint_styles h)
         (page_id h) (page_name h) (exported h) (posted h).

Definition with_viewport (vp : Viewport) (h : Host) : Host :=
  mkHost (nodes h) (node_count h) (selection h) vp (paint_styles h)
         (page_id h) (page_name h) (exported h) (posted h).

Definition with_paint_styles (ss : list PaintStyle) (h : Host) : Host :=
  mkHost (nodes h) (node_count h) (selection h) (viewport h) ss
         (page_id h) (page_name h) (exported h) (posted h).

Definition log_export (r : nat) (settings : value) (h : Host) : Host :=
  mkHost (nodes h) (node_count h) (selection h) (viewport h) (paint_styles h)
         (page_id h) (page_name h) (exported h ++ [(r, settings)]) (posted h).

Definition log_post (msg : value) (h : Host) : Host :=
  mkHost (nodes h) (node_count h) (selection h) (viewport h) (paint_styles h)
         (page_id h) (page_name h) (exported h) (posted h ++ [msg]).

Definition set_prop (k : string) (v : value) (n : Node) : Node :=
  mkNode (node_id n) (node_type n) (node_name n)
         (set_field k v (node_props n)) (node_children n).

Definition set_node_prop (r : nat) (k : string) (v : value) (h : Host) : Host :=
  with_node r (set_prop k v (nodes h r)) h.

Definition set_style_name (v : value) (s : PaintStyle) : PaintStyle :=
  mkPaintStyle (style_id s) v (style_description s) (style_paints s).

Definition set_style_paints (ps : list value) (s : PaintStyle) : PaintStyle :=
  mkPaintStyle (style_id s) (style_name s) (style_description s) ps.

(** [a === b] between a value of the document and a parsed parameter:
    primitives compare by value, objects and arrays are distinct objects. *)
Definition strict_eq (a b : value) : bool :=
  match a, b with
  | VUndef, VUndef | VNull, VNull => true
  | VBool x, VBool y => Bool.eqb x y
  | VNum x, VNum y => Qeq_bool x y
  | VStr x, VStr y => String.eqb x y
  | _, _ => false
  end.

(** [l.find(p)], with the position found, which names the object. *)
Fixpoint find_from {A} (p : A -> bool) (i : nat) (l : list A) : option (nat * A) :=
  match l with
  | [] => None
  | x :: rest => if p x then Some (i, x) else find_from p (S i) rest
  end.

Definition find_indexed {A} (p : A -> bool) (l : list A) : option (nat * A) :=
  find_from p 0 l.

(** ** plugin/src/code.ts *)

Section Plugin.

Variable api : HostApi.

(** A host call: refused by the host with something thrown, or carried out. *)
Definition host_call (c : HostCall) (effect : Host -> Host) : M unit :=
  fun h =>
    match host_rejects api c h with
    | Some e => (h, Threw e)
    | None => (effect h, Returned tt)
    end.

(** A [TypeError] raised by the engine; [what] says which. *)
Definition type_error {A} (what : string) : M A :=
  throw (ThrowError (type_error_message api what)).

(** [String(error)] in the [catch], for what the host threw that is no
    [Error]; an object prints through the [toString] it inherits. *)
Fixpoint to_String (v : value) : string :=
  match v with
  | VUndef => "undefined"
  | VNull => "null"
  | VBool true => "true"
  | VBool false => "false"
  | VNum q => number_to_string api q
  | VStr s => s
  | VArr items =>
      String.concat ","
        (map (fun x => match x with
                       | VUndef | VNull => ""
                       | _ => to_String x
                       end) items)
  | VObj _ => "[object Object]"
  | VSym d => "Symbol(" ++ d ++ ")"
  end.

(** ToString, the conversion a template literal applies to the value of
    [${...}]: the text, or what the TypeError says when the conversion
    throws.  A plain object converts through the [toString] it inherits,
    unless it has a key [toString] of its own: a parsed value is never
    callable, the [valueOf] tried next gives no primitive, and the
    conversion throws.  An array joins the conversions of its items,
    [null] and [undefined] counting as empty; the first item that does
    not convert ends the join.  A symbol does not convert. *)
Fixpoint ToString (v : value) : string + string :=
  match v with
  | VUndef => inl "undefined"
  | VNull => inl "null"
  | VBool true => inl "true"
  | VBool false => inl "false"
  | VNum q => inl (number_to_string api q)
  | VStr s => inl s
  | VArr items =>
      (fix join (l : list value) : string + string :=
         match l with
         | [] => inl ""
         | x :: rest =>
             match match x with
                   | VUndef | VNull => inl ""
                   | _ => ToString x
                   end with
             | inl first =>
                 match join rest with
                 | inl others =>
                     inl (match rest with
                          | [] => first
                          | _ :: _ => first ++ "," ++ others
                          end)
                 | inr what => inr what
                 end
             | inr what => inr what
             end
         end) items
  | VObj o =>
      if has_key "toString" o
      then inr "Cannot convert object to primitive value"
      else inl "[object Object]"
  | VSym _ => inr "Cannot convert a Symbol value to a string"
  end.

(** The text of [${v}] in a template literal. *)
Definition template (v : value) : M string :=
  match ToString v with
  | inl text => ret text
  | inr what => type_error what
  end.

(** [v.k] on any value: reading a property of [null] or [undefined]
    throws; the keys read by the source exist on objects only. *)
Definition member (v : value) (k : string) : M value :=
  match v with
  | VUndef | VNull => type_error ("cannot read property " ++ k)
  | VObj o => ret (get_field k o)
  | _ => ret VUndef
  end.

(** [v.startsWith(p)]: only a string has the method. *)
Definition call_startsWith (v : value) (p : string) : M bool :=
  match v with
  | VStr s => ret (startsWith p s)
  | _ => type_error "startsWith is not a function"
  end.

(** [v.toUpperCase()] *)
Definition call_toUpperCase (v : value) : M string :=
  match v with
  | VStr s => ret (toUpperCase s)
  | _ => type_error "toUpperCase is not a function"
  end.

(** [node.k] for the node behind a reference. *)
Definition node_prop (r : nat) (k : string) : M value :=
  read (fun h => get_field k (node_props (nodes h r))).

(** [node.k = v] *)
Definition assign_node_prop (r : nat) (k : string) (v : value) : M unit :=
  host_call (SetNodeProp r k v) (set_node_prop r k v).

Definition getNodeProperties (node : Node) : object :=
  let baseProperties : object :=
    [ ("id", VStr (node_id node));
      ("type", VStr (node_type node));
      ("name", VStr (node_name node));
      ("visible", if has_key "visible" (node_props node)
                  then get_field "visible" (node_props node) else VUndef);
      ("locked", if has_key "locked" (node_props node)
                 then get_field "locked" (node_props node) else VUndef) ] in
  let baseProperties :=
    if has_key "width" (node_props node) && has_key "height" (node_props node)
    then set_field "height" (get_field "height" (node_props node))
           (set_field "width" (get_field "width" (node_props node)) baseProperties)
    else baseProperties in
  let baseProperties :=
    if has_key "x" (node_props node) && has_key "y" (node_props node)
    then set_field "y" (get_field "y" (node_props node))
           (set_field "x" (get_field "x" (node_props node)) baseProperties)
    else baseProperties in
  let baseProperties :=
    if has_key "fills" (node_props node)
    then set_field "fills" (get_field "fills" (node_props node)) baseProperties
    else baseProperties in
  let baseProperties :=
    if has_key "strokes" (node_props node)
    then set_field "strokeWeight" (get_field "strokeWeight" (node_props node))
           (set_field "strokes" (get_field "strokes" (node_props node)) baseProperties)
    else baseProperties in
  baseProperties.

(** [{ type: 'SOLID', color }] *)
Definition solid_paint (color : value) : value :=
  VObj [("type", VStr "SOLID"); ("color", color)].

(** [figma.createPaintStyle()]: the new style joins the local styles. *)
Definition createPaintStyle : M (nat * PaintStyle) :=
  do h <- read (fun h => h);
  host_call CreatePaintStyle
    (with_paint_styles (paint_styles h ++ [new_paint_style api h])) ;;
  ret (length (paint_styles h), new_paint_style api h).

Definition assign_style_name (s : nat) (v : value) : M unit :=
  host_call (SetStyleName s v)
    (fun h => with_paint_styles (alter (set_style_name v) s (paint_styles h)) h).

Definition assign_style_paints (s : nat) (ps : list value) : M unit :=
  host_call (SetStylePaints s ps)
    (fun h => with_paint_styles (alter (set_style_paints ps) s (paint_styles h)) h).

(** Returns the style object: its position and its contents on return. *)
Definition createOrUpdateColorStyle (name color : value) : M (nat * PaintStyle) :=
  do existingStyles <- read paint_styles;
  match find_indexed (fun style => strict_eq (style_name style) name) existingStyles with
  | Some (i, existingStyle) =>
      assign_style_paints i [solid_paint color] ;;
      ret (i, set_style_paints [solid_paint color] existingStyle)
  | None =>
      do created <- createPaintStyle;
      let '(i, newStyle) := created in
      assign_style_name i name ;;
      assign_style_paints i [solid_paint color] ;;
      ret (i, set_style_paints [solid_paint color] (set_style_name name newStyle))
  end.

Definition extractPaintStyleInfo (style : PaintStyle) : value :=
  VObj [ ("id", VStr (style_id style));
         ("name", style_name style);
         ("description", style_description style);
         ("paints", VArr (style_paints style)) ].

(** [Array.isArray(v) ? Array.from(v) : []] *)
Definition array_or_empty (v : value) : list value :=
  match v with VArr items => items | _ => [] end.

(** The shared body of [setFillColor] and [setStrokeColor]. *)
Definition put_solid (paints : list value) (color : value) : M (list value) :=
  let solidPaint := solid_paint color in
  match paints with
  | first :: _ =>
      do ty <- member first "type";
      if strict_eq ty (VStr "SOLID")
      then ret (<[0 := solidPaint]> paints)
      else ret (solidPaint :: paints)
  | [] => ret (solidPaint :: paints)
  end.

(** The shared body of [setFillGradient] and [setStrokeGradient]. *)
Definition put_gradient (paints : list value) (gradient : value) : M (list value) :=
  match paints with
  | first :: _ =>
      do ty <- member first "type";
      do isGradient <- call_startsWith ty "GRADIENT";
      if isGradient
      then ret (<[0 := gradient]> paints)
      else ret (gradient :: paints)
  | [] => ret (gradient :: paints)
  end.

Definition setFillColor (node : nat) (color : value) : M unit :=
  do fills <- node_prop node "fills";
  do paints <- put_solid (array_or_empty fills) color;
  assign_node_prop node "fills" (VArr paints).

Definition setStrokeColor (node : nat) (color : value) : M unit :=
  do strokes <- node_prop node "strokes";
  do paints <- put_solid (array_or_empty strokes) color;
  assign_node_prop node "strokes" (VArr paints).

Definition setFillGradient (node : nat) (gradient : value) : M unit :=
  do fills <- node_prop node "fills";
  do paints <- put_gradient (array_or_empty fills) gradient;
  assign_node_prop node "fills" (VArr paints).

Definition setStrokeGradient (node : nat) (gradient : value) : M unit :=
  do strokes <- node_prop node "strokes";
  do paints <- put_gradient (array_or_empty strokes) gradient;
  assign_node_prop node "strokes" (VArr paints).

Definition setStrokeWeight (node : nat) (strokeWeight : value) : M unit :=
  assign_node_prop node "strokeWeight" strokeWeight.

(** [[...v]]: an array spreads to its items, a string to its characters,
    nothing else the source can meet is iterable. *)
Definition spread (v : value) : M (list value) :=
  match v with
  | VArr items => ret items
  | VStr s => ret (map (fun c => VStr (String c EmptyString)) (String.list_ascii_of_string s))
  | _ => type_error "value is not iterable"
  end.

Definition setEffect (node : nat) (effect : value) : M unit :=
  do current <- node_prop node "effects";
  do effects <- (if truthy current then spread current else ret []);
  assign_node_prop node "effects" (VArr (effects ++ [effect])).

(** [figma.getStyleById(id)], over the local paint styles; [None] is
    [null]. *)
Definition getStyleById (styleId : value) : M (option (nat * PaintStyle)) :=
  read (fun h => find_indexed (fun style => strict_eq (VStr (style_id style)) styleId)
                              (paint_styles h)).

(** The shared body of [applyFillColorStyle] and [applyStrokeColorStyle];
    [k] is the property assigned. *)
Definition apply_color_style (k : string) (node : nat) (styleId : value) : M unit :=
  do found <- getStyleById styleId;
  match found with
  | None =>
      do id <- template styleId;
      throw_error ("Color style with ID " ++ id ++ " not found.")
  | Some (_, style) =>
      if Nat.eqb (length (style_paints style)) 0
      then do name <- template (style_name style);
           throw_error ("Color style " ++ name ++ " has no paints defined.")
      else assign_node_prop node k (VArr (style_paints style))
  end.

Definition applyFillColorStyle := apply_color_style "fills".
Definition applyStrokeColorStyle := apply_color_style "strokes".

Definition exportableNodeTypes : list string :=
  [ "BOOLEAN_OPERATION"; "CODE_BLOCK"; "COMPONENT"; "COMPONENT_SET";
    "CONNECTOR"; "ELLIPSE"; "EMBED"; "FRAME"; "GROUP"; "HIGHLIGHT";
    "INSTANCE"; "LINE"; "LINK_UNFURL"; "MEDIA"; "PAGE"; "POLYGON";
    "RECTANGLE"; "SECTION"; "SHAPE_WITH_TEXT"; "SLICE"; "STAMP"; "STAR";
    "STICKY"; "TABLE"; "TEXT"; "VECTOR"; "WASHI_TAPE"; "WIDGET" ].

Definition isExportable (node : Node) : bool :=
  existsb (String.eqb (node_type node)) exportableNodeTypes.

(** *** The handlers: the cases of the [switch] in [figma.ui.onmessage] *)

(** [figma.currentPage.selection] as the nodes themselves. *)
Definition selected_nodes : M (list Node) :=
  read (fun h => map (nodes h) (selection h)).

Definition case_get_selection (params : object) : M value :=
  do sel <- selected_nodes;
  ret (VArr (map (fun node => VObj (getNodeProperties node)) sel)).

(** The projection of [get-selection-details] for one node; [heap]
    resolves the children. *)
Definition node_details (heap : nat -> Node) (node : Node) : object :=
  let properties := getNodeProperties node in
  let properties :=
    match node_children node with
    | Some children =>
        set_field "children"
          (VArr (map (fun child => VObj (getNodeProperties (heap child))) children))
          properties
    | None => properties
    end in
  let properties :=
    if has_key "constraints" (node_props node)
    then set_field "constraints" (get_field "constraints" (node_props node)) properties
    else properties in
  let properties :=
    if has_key "layoutMode" (node_props node)
    then set_field "layout"
           (VObj (map (fun k => (k, get_field k (node_props node)))
                      [ "layoutMode"; "primaryAxisAlignItems"; "counterAxisAlignItems";
                        "paddingLeft"; "paddingRight"; "paddingTop"; "paddingBottom";
                        "itemSpacing" ]))
           properties
    else properties in
  properties.

Definition case_get_selection_details (params : object) : M value :=
  do heap <- read nodes;
  do sel <- selected_nodes;
  ret (VArr (map (fun node => VObj (node_details heap node)) sel)).

Definition createRectangle : M nat :=
  do h <- read (fun h => h);
  host_call CreateRectangle (alloc_node (new_rectangle api h)) ;;
  ret (node_count h).

Definition createText : M nat :=
  do h <- read (fun h => h);
  host_call CreateText (alloc_node (new_text api h)) ;;
  ret (node_count h).

Definition scrollAndZoomIntoView (rs : list nat) : M unit :=
  host_call (ScrollAndZoomIntoView rs)
    (fun h => with_viewport (scrolled_viewport api rs h) h).

Definition assign_selection (rs : list nat) : M unit :=
  host_call (SetSelection rs) (with_selection rs).

Definition viewport_center_x : M value := read (fun h => VNum (center_x (viewport h))).
Definition viewport_center_y : M value := read (fun h => VNum (center_y (viewport h))).

Definition node_id_of (r : nat) : M value := read (fun h => VStr (node_id (nodes h r))).

Definition case_create_rectangle (params : object) : M value :=
  do rect <- createRectangle;
  do cx <- viewport_center_x;
  assign_node_prop rect "x" (js_or (get_field "x" params) cx) ;;
  do cy <- viewport_center_y;
  assign_node_prop rect "y" (js_or (get_field "y" params) cy) ;;
  scrollAndZoomIntoView [rect] ;;
  assign_selection [rect] ;;
  do id <- node_id_of rect;
  ret (VObj [("id", id)]).

Definition case_create_text (params : object) : M value :=
  do text <- createText;
  do cx <- viewport_center_x;
  assign_node_prop text "x" (js_or (get_field "x" params) cx) ;;
  do cy <- viewport_center_y;
  assign_node_prop text "y" (js_or (get_field "y" params) cy) ;;
  assign_node_prop text "characters" (js_or (get_field "text" params) (VStr "Hello World")) ;;
  scrollAndZoomIntoView [text] ;;
  assign_selection [text] ;;
  do id <- node_id_of text;
  ret (VObj [("id", id)]).

(** The second [case 'get-selection':] of the source. *)
Definition case_get_selection_2 (params : object) : M value :=
  do sel <- selected_nodes;
  ret (VArr (map (fun node => VObj [ ("id", VStr (node_id node));
                                     ("type", VStr (node_type node));
                                     ("name", VStr (node_name node)) ]) sel)).

Definition case_get_color_styles (params : object) : M value :=
  do colorStyles <- read paint_styles;
  ret (VArr (map extractPaintStyleInfo colorStyles)).

Definition case_create_color_style (params : object) : M value :=
  let name := get_field "name" params in
  let color := get_field "color" params in
  if negb (truthy name) || negb (truthy color)
  then throw_error "Name and color are required."
  else
    do style <- createOrUpdateColorStyle name color;
    ret (VObj [("styleId", VStr (style_id (snd style)))]).

(** [node.exportAsync(settings)] *)
Definition exportAsync (r : nat) (settings : value) : M value :=
  do h <- read (fun h => h);
  host_call (ExportAsync r settings) (log_export r settings) ;;
  ret (export_data api r settings h).

Definition scale_constraint (exportScale : value) : value :=
  VObj [("type", VStr "SCALE"); ("value", exportScale)].

Definition case_export_selection (params : object) : M value :=
  do sel <- read selection;
  match sel with
  | [] => throw_error "Please select a node to export."
  | selectedNode :: _ =>
      let format := get_field "format" params in
      let scale := get_field "scale" params in
      if negb (truthy format)
      then throw_error "Format is required for exporting."
      else
        do node <- read (fun h => nodes h selectedNode);
        if negb (isExportable node)
        then throw_error ("Node type " ++ node_type node ++ " is not exportable.")
        else
          let exportScale := js_or scale (VNum 1) in
          do upper <- call_toUpperCase format;
          do exportSettings <-
            (if String.eqb upper "PNG" then
               ret (VObj [("format", VStr "PNG"); ("constraint", scale_constraint exportScale)])
             else if String.eqb upper "JPG" then
               ret (VObj [("format", VStr "JPG"); ("constraint", scale_constraint exportScale)])
             else if String.eqb upper "SVG" then
               ret (VObj [("format", VStr "SVG")])
             else if String.eqb upper "PDF" then
               ret (VObj [("format", VStr "PDF")])
             else do text <- template format;
                  throw_error ("Unsupported export format: " ++ text));
          do exportedData <- exportAsync selectedNode exportSettings;
          ret (VObj [("data", exportedData); ("format", format); ("scale", exportScale)])
  end.

Definition case_set_fill_color (params : object) : M value :=
  do sel <- read selection;
  match sel with
  | [] => throw_error "Please select a node to set fill color."
  | nodeToFill :: _ =>
      let fillColorValue := get_field "value" params in
      let fillStyleId := get_field "styleId" params in
      (if truthy fillStyleId then applyFillColorStyle nodeToFill fillStyleId
       else if truthy fillColorValue then
         do ty <- member fillColorValue "type";
         if strict_eq ty (VStr "SOLID") then
           do color <- member fillColorValue "color";
           setFillColor nodeToFill color
         else
           do isGradient <- call_startsWith ty "GRADIENT";
           if isGradient then setFillGradient nodeToFill fillColorValue
           else do text <- template ty;
                throw_error ("Unsupported paint type for fills: " ++ text)
       else throw_error
              "Either 'value' (color/gradient) or 'styleId' is required for setting fill color.") ;;
      ret (VObj [("status", VStr "Fill color set successfully.")])
  end.

Definition case_set_stroke_color (params : object) : M value :=
  do sel <- read selection;
  match sel with
  | [] => throw_error "Please select a node to set stroke color."
  | nodeToStroke :: _ =>
      let strokeColorValue := get_field "value" params in
      let strokeStyleId := get_field "styleId" params in
      (if truthy strokeStyleId then applyStrokeColorStyle nodeToStroke strokeStyleId
       else if truthy strokeColorValue then
         do ty <- member strokeColorValue "type";
         if strict_eq ty (VStr "SOLID") then
           do color <- member strokeColorValue "color";
           setStrokeColor nodeToStroke color
         else
           do isGradient <- call_startsWith ty "GRADIENT";
           if isGradient then setStrokeGradient nodeToStroke strokeColorValue
           else do text <- template ty;
                throw_error ("Unsupported paint type for strokes: " ++ text)
       else throw_error
              "Either 'value' (color/gradient) or 'styleId' is required for setting stroke color.") ;;
      ret (VObj [("status", VStr "Stroke color set successfully.")])
  end.

Definition case_set_stroke_weight (params : object) : M value :=
  do sel <- read selection;
  match sel with
  | [] => throw_error "Please select a node to set stroke weight."
  | nodeForStrokeWeight :: _ =>
      let strokeWeightValue := get_field "value" params in
      match strokeWeightValue with
      | VNum _ =>
          setStrokeWeight nodeForStrokeWeight strokeWeightValue ;;
          ret (VObj [("status", VStr "Stroke weight set successfully.")])
      | _ => throw_error "'value' is required and must be a number for setting stroke weight."
      end
  end.

Definition case_set_effect (params : object) : M value :=
  do sel <- read selection;
  match sel with
  | [] => throw_error "Please select a node to set effect."
  | nodeForEffect :: _ =>
      let effectValue := get_field "value" params in
      if negb (truthy effectValue)
      then throw_error "'value' (effect object) is required for setting an effect."
      else
        setEffect nodeForEffect effectValue ;;
        ret (VObj [("status", VStr "Effect set successfully.")])
  end.

Definition case_figma_ping (params : object) : M value :=
  do h <- read (fun h => h);
  ret (VObj
    [ ("status", VStr "ok");
      ("timestamp", VStr (now_iso api h));
      ("received_message", get_field "message" params);
      ("received_timestamp", get_field "timestamp" params);
      ("plugin_info", VObj
         [ ("version", VStr "1.0.0");
           ("viewport", VObj
              [ ("zoom", VNum (zoom (viewport h)));
                ("center", VObj [ ("x", VNum (center_x (viewport h)));
                                  ("y", VNum (center_y (viewport h))) ]) ]);
           ("current_page", VObj
              [ ("id", VStr (page_id h));
                ("name", VStr (page_name h));
                ("selection_count",
                 VNum (inject_Z (Z.of_nat (length (selection h))))) ]) ]) ]).

(** *** The catalog returned by [list-functions] *)

(** [{ type: ty, description: desc }] *)
Definition described (ty desc : string) : value :=
  VObj [("type", VStr ty); ("description", VStr desc)].

(** [{ type: "object", properties: {...}, required: [...] }] *)
Definition input_schema (properties : object) (required : list string) : value :=
  VObj [ ("type", VStr "object");
         ("properties", VObj properties);
         ("required", VArr (map VStr required)) ].

(** [{ name, description, inputSchema }] *)
Definition function_entry (name description : string)
    (properties : object) (required : list string) : value :=
  VObj [ ("name", VStr name);
         ("description", VStr description);
         ("inputSchema", input_schema properties required) ].

Definition catalog : list value :=
  [ function_entry "get.selection"
      "Get information about the currently selected nodes" [] [];
    function_entry "get.selection.details"
      "Get detailed information about selected nodes including children, constraints, and layout properties"
      [] [];
    function_entry "create.rectangle" "Create a rectangle in Figma"
      [ ("x", described "number" "X coordinate of the rectangle");
        ("y", described "number" "Y coordinate of the rectangle") ] [];
    function_entry "create.text" "Create a text element in Figma"
      [ ("x", described "number" "X coordinate of the text");
        ("y", described "number" "Y coordinate of the text");
        ("text", described "string" "Text content") ] [];
    function_entry "get.color.styles"
      "Get a list of all color styles in the document" [] [];
    function_entry "create.color.style" "Create or update a color style"
      [ ("name", described "string" "Name of the color style");
        ("color", VObj [ ("type", VStr "object");
                         ("description", VStr "RGB color object");
                         ("properties", VObj [ ("r", VObj [("type", VStr "number")]);
                                               ("g", VObj [("type", VStr "number")]);
                                               ("b", VObj [("type", VStr "number")]) ]);
                         ("required", VArr [VStr "r"; VStr "g"; VStr "b"]) ]) ]
      ["name"; "color"];
    function_entry "export.selection" "Export the currently selected node"
      [ ("format", described "string" "Export format (PNG, JPG, SVG, PDF)");
        ("scale", described "number" "Export scale (optional, default 1)") ]
      ["format"];
    function_entry "set.fill.color" "Set fill color or gradient for the selected node"
      [ ("value", described "object" "Color or gradient object");
        ("styleId", described "string" "ID of the color style to apply (optional)") ] [];
    function_entry "set.stroke.color" "Set stroke color or gradient for the selected node"
      [ ("value", described "object" "Color or gradient object");
        ("styleId", described "string" "ID of the color style to apply (optional)") ] [];
    function_entry "set.stroke.weight" "Set stroke weight for the selected node"
      [ ("value", described "number" "Stroke weight number") ] ["value"];
    function_entry "set.effect" "Set effect for the selected node"
      [ ("value", described "object" "Effect object") ] ["value"];
    function_entry "figma.ping" "Ping the Figma plugin to check its status"
      [ ("message", described "string" "Message to send with the ping");
        ("timestamp", described "string" "Timestamp of the ping") ] [] ].

Definition case_list_functions (params : object) : M value :=
  ret (VObj [("functions", VArr catalog)]).

(** *** The dispatcher *)

(** The [case] labels of the [switch] with their bodies, in source order. *)
Definition command_table : list (string * (object -> M value)) :=
  [ ("get-selection", case_get_selection);
    ("get-selection-details", case_get_selection_details);
    ("create-rectangle", case_create_rectangle);
    ("create-text", case_create_text);
    ("get-selection", case_get_selection_2);
    ("get-color-styles", case_get_color_styles);
    ("create-color-style", case_create_color_style);
    ("export-selection", case_export_selection);
    ("set-fill-color", case_set_fill_color);
    ("set-stroke-color", case_set_stroke_color);
    ("set-stroke-weight", case_set_stroke_weight);
    ("set-effect", case_set_effect);
    ("figma-ping", case_figma_ping);
    ("list-functions", case_list_functions) ].

(** [switch (method)]: the first label strictly equal to [method] wins;
    [default:] throws. *)
Fixpoint switch (method : value) (cases : list (string * (object -> M value)))
    (params : object) : M value :=
  match cases with
  | [] => do text <- template method; throw_error ("Unknown command: " ++ text)
  | (label, body) :: rest =>
      if strict_eq method (VStr label) then body params
      else switch method rest params
  end.

(** [figma.ui.postMessage(msg)] *)
Definition postMessage (msg : value) : M unit :=
  fun h => (log_post msg h, Returned tt).

(** [error instanceof Error ? error.message : String(error)] *)
Definition error_message (e : thrown) : string :=
  match e with
  | ThrowError message => message
  | ThrowValue v => to_String v
  end.

(** The body of [figma.ui.onmessage] for a message that is an object:
    [const { method, id, ...params } = msg] and the [try]/[catch]. *)
Definition dispatch (msg : object) : M unit :=
  let method := get_field "method" msg in
  let id := get_field "id" msg in
  let params := without_keys ["method"; "id"] msg in
  try_catch
    (do result <- switch method command_table params;
     postMessage (VObj [("id", id); ("result", result)]))
    (fun error =>
       postMessage (VObj [("id", id);
                          ("error", VObj [("message", VStr (error_message error))])])).

(** [figma.ui.onmessage] on whatever arrives: destructuring [null] or
    [undefined] throws before the [try]; any other non-object has no
    properties to take. *)
Definition onmessage (msg : value) : M unit :=
  match msg with
  | VUndef | VNull => type_error "cannot destructure"
  | VObj fields => dispatch fields
  | _ => dispatch []
  end.

End Plugin.

(** ** The UI page: the script of ui.html *)

Module UI.

(** [WebSocket.readyState] *)
Inductive ReadyState : Type := CONNECTING | OPEN | CLOSING | CLOSED.

Record CloseEvent := mkCloseEvent {
  wasClean : bool;
  code : Z;
  reason : string
}.

(** What the script writes to the console. *)
Inductive ConsoleEntry : Type :=
| LogReconnect (reason : string)
| LogSocketError
| LogParseFailure.

(** The state the script can see or change: the status element, the
    variable [ws], the sockets it has created, the pending [setTimeout]
    callbacks (all of them [connect], kept with their delay in
    milliseconds), the console, the messages posted to the parent window
    and the texts handed to [ws.send]. *)
Record Page := mkPage {
  status_text : string;
  status_class : string;
  ws : option nat;
  sockets : list ReadyState;
  timers : list Z;
  console : list ConsoleEntry;
  to_plugin : list value;
  sent : list (nat * string)
}.

(** How a handler finished: normally, or with an exception nobody
    caught. *)
Inductive completion : Type := Normal | Uncaught.

(** The page as loaded, before the script's first [connect()]. *)
Definition loaded : Page :=
  mkPage "Connecting to MCP server..." "disconnected" None [] [] [] [] [].

Definition with_status (text class : string) (p : Page) : Page :=
  mkPage text class (ws p) (sockets p) (timers p) (console p) (to_plugin p) (sent p).

Definition with_console (e : ConsoleEntry) (p : Page) : Page :=
  mkPage (status_text p) (status_class p) (ws p) (sockets p) (timers p)
         (console p ++ [e]) (to_plugin p) (sent p).

Definition with_sockets (ss : list ReadyState) (p : Page) : Page :=
  mkPage (status_text p) (status_class p) (ws p) ss (timers p)
         (console p) (to_plugin p) (sent p).

Definition with_timers (ts : list Z) (p : Page) : Page :=
  mkPage (status_text p) (status_class p) (ws p) (sockets p) ts
         (console p) (to_plugin p) (sent p).

(** [setTimeout(connect, delay)] *)
Definition setTimeout (delay : Z) (p : Page) : Page :=
  with_timers (timers p ++ [delay]) p.

(** [ws = new WebSocket(...)]; the four handlers below are then attached
    to the new socket. *)
Definition connect (p : Page) : Page :=
  mkPage (status_text p) (status_class p) (Some (length (sockets p)))
         (sockets p ++ [CONNECTING]) (timers p) (console p) (to_plugin p) (sent p).

(** [socket.close()]: starts the closing handshake of a socket that is
    connecting or open, and does nothing to one closing or closed. *)
Definition close_socket (st : ReadyState) : ReadyState :=
  match st with
  | CONNECTING | OPEN => CLOSING
  | CLOSING | CLOSED => st
  end.

Definition ws_close (p : Page) : Page :=
  match ws p with
  | Some s => with_sockets (alter close_socket s (sockets p)) p
  | None => p
  end.

Definition show_code (c : Z) : string :=
  DecimalString.NilZero.string_of_int (Z.to_int c).

Definition onopen (p : Page) : Page :=
  with_status "Connected to MCP server" "connected" p.

Definition onclose (event : CloseEvent) (p : Page) : Page :=
  let p :=
    if wasClean event
    then with_status ("Connection closed cleanly, code=" ++ show_code (code event)
                        ++ " reason=" ++ reason event) (status_class p) p
    else with_status "Disconnected from MCP server" (status_class p) p in
  let p := with_status (status_text p) "disconnected" p in
  let p := with_console (LogReconnect (reason event)) p in
  setTimeout 3000 p.

Definition onerror (p : Page) : Page :=
  ws_close (with_console LogSocketError p).

Section Transport.

(** [JSON.parse] yields a value or throws; [JSON.stringify] yields the
    text of a value. *)
Variable JSON_parse : string -> option value.
Variable JSON_stringify : value -> string.

(** [parent.postMessage(msg, '*')] *)
Definition post_to_parent (msg : value) (p : Page) : Page :=
  mkPage (status_text p) (status_class p) (ws p) (sockets p) (timers p)
         (console p) (to_plugin p ++ [msg]) (sent p).

(** [ws.onmessage] *)
Definition ws_onmessage (data : string) (p : Page) : Page :=
  match JSON_parse data with
  | Some message => post_to_parent (VObj [("pluginMessage", message)]) p
  | None => with_console LogParseFailure p
  end.

(** [ws.send(text)]: throws on a socket still connecting, transmits on an
    open one, and discards the text on one closing or closed. *)
Definition ws_send (text : string) (p : Page) : Page * completion :=
  match ws p with
  | None => (p, Uncaught)
  | Some s =>
      match sockets p !! s with
      | Some OPEN =>
          (mkPage (status_text p) (status_class p) (ws p) (sockets p) (timers p)
                  (console p) (to_plugin p) (sent p ++ [(s, text)]), Normal)
      | Some CONNECTING => (p, Uncaught)
      | _ => (p, Normal)
      end
  end.

(** [window.onmessage]; [data] is [event.data]. *)
Definition window_onmessage (data : value) (p : Page) : Page * completion :=
  match data with
  | VUndef | VNull => (p, Uncaught)
  | VObj o =>
      if truthy (get_field "pluginMessage" o)
      then ws_send (JSON_stringify (get_field "pluginMessage" o)) p
      else (p, Normal)
  | _ => (p, Normal)
  end.

(** *** The browser around the script *)

(** The events the browser delivers to the script. *)
Inductive Event : Type :=
| SocketOpened (s : nat)
| SocketClosed (s : nat) (event : CloseEvent) (failed : bool)
| SocketError (s : nat)
| SocketMessage (s : nat) (data : string)
| WindowMessage (data : value)
| TimerFired (i : nat).

(** A socket opens once, from [CONNECTING]; it fires [close] once, on
    becoming [CLOSED], and when the connection failed the browser fires
    [error] just before that [close], the socket being [CLOSED] already;
    an [error] on its own reaches a socket only before it is closed, and
    a [message] only while it is [OPEN]; a timer fires once and runs
    [connect]. *)
Inductive step : Page -> Event -> Page -> Prop :=
| step_open p s :
    sockets p !! s = Some CONNECTING ->
    step p (SocketOpened s) (onopen (with_sockets (<[s := OPEN]> (sockets p)) p))
| step_close p s st event failed :
    sockets p !! s = Some st -> st <> CLOSED ->
    step p (SocketClosed s event failed)
         (onclose event
            (let closed := with_sockets (<[s := CLOSED]> (sockets p)) p in
             if failed then onerror closed else closed))
| step_error p s st :
    sockets p !! s = Some st -> st <> CLOSED ->
    step p (SocketError s) (onerror p)
| step_message p s data :
    sockets p !! s = Some OPEN ->
    step p (SocketMessage s data) (ws_onmessage data p)
| step_window p data :
    step p (WindowMessage data) (fst (window_onmessage data p))
| step_timer p i delay :
    timers p !! i = Some delay ->
    step p (TimerFired i) (connect (with_timers (delete i (timers p)) p)).

(** The pages the script can be in: it calls [connect()] once when
    loaded, and then only reacts to events. *)
Inductive reachable : Page -> Prop :=
| reachable_init : reachable (connect loaded)
| reachable_step p ev p' : reachable p -> step p ev p' -> reachable p'.

End Transport.

End UI.

(** ** The bridge: page and plugin together *)

Section Bridge.

Variable api : HostApi.
Variable JSON_parse : string -> option value.
Variable JSON_stringify : value -> string.

(** Figma hands the [pluginMessage] of what the page posted to
    [figma.ui.onmessage]. *)
Definition deliver_to_plugin (wrapped : value) (h : Host) : Host :=
  match wrapped with
  | VObj o => fst (onmessage api (get_field "pluginMessage" o) h)
  | _ => h
  end.

(** Figma hands what the plugin posted to [window.onmessage], wrapped. *)
Definition deliver_to_page (response : value) (p : UI.Page) : UI.Page :=
  fst (UI.window_onmessage JSON_stringify (VObj [("pluginMessage", response)]) p).

(** One payload arriving on the socket, followed through the page, the
    dispatcher and back to the socket. *)
Definition receive (data : string) (sys : UI.Page * Host) : UI.Page * Host :=
  let (p, h) := sys in
  let p1 := UI.ws_onmessage JSON_parse data p in
  let forwarded := drop (length (UI.to_plugin p)) (UI.to_plugin p1) in
  let h1 := foldl (fun h m => deliver_to_plugin m h) h forwarded in
  let responses := drop (length (posted h)) (posted h1) in
  (foldl (fun p r => deliver_to_page r p) p1 responses, h1).

End Bridge.

(** ** Fixtures: one concrete host, to run the definitions on *)

Module Fixture.

Definition grey : value :=
  VObj [("r", VNum (1 # 2)); ("g", VNum (1 # 2)); ("b", VNum (1 # 2))].

Definition red : value :=
  VObj [("r", VNum 1); ("g", VNum 0); ("b", VNum 0)].

Definition rectangle : Node :=
  mkNode "1:2" "RECTANGLE" "Rectangle"
    [ ("visible", VBool true); ("locked", VBool false);
      ("width", VNum 100); ("height", VNum 100);
      ("x", VNum 0); ("y", VNum 0);
      ("fills", VArr [solid_paint grey]);
      ("strokes", VArr []); ("strokeWeight", VNum 1) ]
    None.

Definition text : Node :=
  mkNode "1:3" "TEXT" "Text"
    [ ("visible", VBool true); ("locked", VBool false);
      ("width", VNum 0); ("height", VNum 14);
      ("x", VNum 0); ("y", VNum 0);
      ("fills", VArr [solid_paint grey]);
      ("characters", VStr "") ]
    None.

(** A node with identity only. *)
Definition bare : Node := mkNode "0:9" "TEXT_PATH" "Path" [] None.

(** A host that refuses nothing. *)
Definition api : HostApi :=
  mkHostApi (fun _ _ => None)
    (fun _ => rectangle) (fun _ => text)
    (fun _ => mkPaintStyle "S:new" (VStr "Paint style") (VStr "") [])
    (fun _ _ _ => VArr [])
    (fun _ h => viewport h)
    (fun _ => "2025-01-01T00:00:00.000Z")
    (fun what => "TypeError: " ++ what)
    (fun q => UI.show_code (Qnum q)).

(** A host that refuses every call. *)
Definition refusing : HostApi :=
  mkHostApi (fun _ _ => Some (ThrowValue (VStr "refused")))
    (new_rectangle api) (new_text api) (new_paint_style api) (export_data api)
    (scrolled_viewport api) (now_iso api) (type_error_message api)
    (number_to_string api).

(** An empty page looking at (40, 30). *)
Definition empty : Host :=
  mkHost (fun _ => bare) 0 [] (mkViewport 40 30 1) [] "0:1" "Page 1" [] [].

(** The same page with the bare node selected. *)
Definition bare_selected : Host := with_selection [0%nat] empty.

(** The same page with a rectangle in it, selected. *)
Definition rectangle_selected : Host :=
  with_selection [0%nat] (alloc_node rectangle empty).

Definition brand (id : string) : PaintStyle :=
  mkPaintStyle id (VStr "Brand") (VStr "") [solid_paint grey].

(** A document in which two local paint styles share the name "Brand". *)
Definition two_brands : Host := with_paint_styles [brand "S:1"; brand "S:2"] empty.

(** [JSON.parse] on the few texts the examples use. *)
Definition parse (text : string) : option value :=
  if String.eqb text "{}" then Some (VObj [])
  else if String.eqb text "null" then Some VNull
  else None.

Definition stringify (v : value) : string := "<json>".

End Fixture.

(** ** Vocabulary of the statements *)

(** [keeps_posted m]: running [m] posts nothing to the page. *)
Definition keeps_posted {A} (m : M A) : Prop :=
  forall h, posted (fst (m h)) = posted h.

(** [defined m]: what [m] returns is never [undefined]. *)
Definition defined (m : M value) : Prop :=
  forall h h' r, m h = (h', Returned r) -> r <> VUndef.

(** The labels of the [switch]. *)
Definition labels (api : HostApi) : list string := map fst (command_table api).

(** A command name with every [-] turned into [.]. *)
Fixpoint dotted (s : string) : string :=
  match s with
  | EmptyString => EmptyString
  | String c rest =>
      String (if Ascii.eqb c "-"%char then "."%char else c) (dotted rest)
  end.

Definition is_string (v : value) : bool :=
  match v with VStr _ => true | _ => false end.

(** [e.name] of a catalog entry. *)
Definition entry_name (e : value) : value :=
  match e with VObj o => get_field "name" o | _ => VUndef end.

(** A parameter of a schema gives its type and a description. *)
Definition parameter_described (p : string * value) : bool :=
  match snd p with
  | VObj o => is_string (get_field "type" o) && is_string (get_field "description" o)
  | _ => false
  end.

(** An entry gives a description and an input schema of type "object"
    whose parameters are each described and whose required list names
    parameters of the schema. *)
Definition entry_described (e : value) : bool :=
  match e with
  | VObj o =>
      is_string (get_field "description" o) &&
      match get_field "inputSchema" o with
      | VObj schema =>
          strict_eq (get_field "type" schema) (VStr "object") &&
          match get_field "properties" schema, get_field "required" schema with
          | VObj properties, VArr required =>
              forallb parameter_described properties &&
              forallb (fun r => match r with
                                | VStr k => has_key k properties
                                | _ => false
                                end) required
          | _, _ => false
          end
      | _ => false
      end
  | _ => false
  end.

(** The catalog entry for a command name, if there is one: the entry
    whose name is the dotted command name, and which is described. *)
Definition catalog_entry_for (m : string) : option value :=
  find (fun e => strict_eq (entry_name e) (VStr (dotted m)) && entry_described e) catalog.

(** The paint property a function writes, and the functions of the source
    for fills ([stroke = false]) and for strokes ([stroke = true]). *)
Definition paint_key (stroke : bool) : string :=
  if stroke then "strokes" else "fills".

Definition set_solid (api : HostApi) (stroke : bool) : nat -> value -> M unit :=
  if stroke then setStrokeColor api else setFillColor api.

Definition set_gradient (api : HostApi) (stroke : bool) : nat -> value -> M unit :=
  if stroke then setStrokeGradient api else setFillGradient api.

Definition apply_style (api : HostApi) (stroke : bool) : nat -> value -> M unit :=
  if stroke then applyStrokeColorStyle api else applyFillColorStyle api.

(** The paint list of a node: what [node.fills] or [node.strokes] holds
    when it is an array, and no paints otherwise. *)
Definition paint_list (k : string) (node : nat) (h : Host) : list value :=
  array_or_empty (get_field k (node_props (nodes h node))).

(** How many local paint styles bear a name. *)
Definition styles_named (name : value) (h : Host) : nat :=
  length (List.filter (fun s => strict_eq (style_name s) name) (paint_styles h)).

(** The shape of every page the script reaches: [ws] is the socket created
    last, every older socket is closed, and either that socket is not yet
    closed and no reconnect is pending, or it is closed and exactly one
    reconnect is pending, due after 3000 ms. *)
Definition one_attempt (p : UI.Page) : Prop :=
  exists s st,
    UI.ws p = Some s /\
    length (UI.sockets p) = S s /\
    (forall j st', UI.sockets p !! j = Some st' -> j <> s -> st' = UI.CLOSED) /\
    UI.sockets p !! s = Some st /\
    ((st <> UI.CLOSED /\ UI.timers p = []) \/
     (st = UI.CLOSED /\ UI.timers p = [3000%Z])).

(** [only_prop r k h h']: between [h] and [h'] nothing of the document
    changed except, at most, the property [k] of the node [r]. *)
Definition only_prop (r : nat) (k : string) (h h' : Host) : Prop :=
  (forall r', r' <> r -> nodes h' r' = nodes h r') /\
  node_id (nodes h' r) = node_id (nodes h r) /\
  node_type (nodes h' r) = node_type (nodes h r) /\
  node_name (nodes h' r) = node_name (nodes h r) /\
  node_children (nodes h' r) = node_children (nodes h r) /\
  (forall k', k' <> k ->
     lookup_field k' (node_props (nodes h' r)) = lookup_field k' (node_props (nodes h r))) /\
  node_count h' = node_count h /\
  selection h' = selection h /\
  viewport h' = viewport h /\
  paint_styles h' = paint_styles h /\
  exported h' = exported h.

(** [touches_only r k m]: running [m] changes at most the property [k] of
    the node [r]. *)
Definition touches_only {A} (r : nat) (k : string) (m : M A) : Prop :=
  forall h, only_prop r k h (fst (m h)).

(** [same_document h h']: [h'] is [h] but for what was posted. *)
Definition same_document (h h' : Host) : Prop :=
  nodes h' = nodes h /\ node_count h' = node_count h /\
  selection h' = selection h /\ viewport h' = viewport h /\
  paint_styles h' = paint_styles h /\ exported h' = exported h.

(** [set-fill-color] ([stroke = false]) or [set-stroke-color]
    ([stroke = true]), and the word their messages use. *)
Definition case_set_color (api : HostApi) (stroke : bool) : object -> M value :=
  if stroke then case_set_stroke_color api else case_set_fill_color api.

Definition paint_word (stroke : bool) : string :=
  if stroke then "stroke" else "fill".

(** The parameters a catalog entry marks as required. *)
Definition required_of (e : value) : list value :=
  match e with
  | VObj o =>
      match get_field "inputSchema" o with
      | VObj schema =>
          match get_field "required" schema with
          | VArr required => required
          | _ => []
          end
      | _ => []
      end
  | _ => []
  end.

(** A host that creates what it is asked to create and refuses every
    assignment to a node. *)
Definition frozen_nodes : HostApi :=
  mkHostApi (fun c _ => match c with
                        | SetNodeProp _ _ _ => Some (ThrowError "node is locked")
                        | _ => None
                        end)
    (new_rectangle Fixture.api) (new_text Fixture.api) (new_paint_style Fixture.api)
    (export_data Fixture.api) (scrolled_viewport Fixture.api) (now_iso Fixture.api)
    (type_error_message Fixture.api) (number_to_string Fixture.api).

(** [status_agrees p]: what the status element shows agrees with the
    socket in [ws]: connected whenever it is open, disconnected whenever
    it is connecting or closed. *)
Definition status_agrees (p : UI.Page) : Prop :=
  forall s st,
    UI.ws p = Some s -> UI.sockets p !! s = Some st ->
    (st = UI.OPEN -> UI.status_class p = "connected") /\
    (st = UI.CONNECTING \/ st = UI.CLOSED -> UI.status_class p = "disconnected").

(** The page once its first socket has closed uncleanly: disconnected,
    with one reconnect pending. *)
Definition after_first_close : UI.Page :=
  UI.onclose (UI.mkCloseEvent false 1006 "")
    (UI.with_sockets [UI.CLOSED] (UI.connect UI.loaded)).

(** The page once its first socket has opened. *)
Definition after_first_open : UI.Page :=
  UI.onopen (UI.with_sockets [UI.OPEN] (UI.connect UI.loaded)).

(** * Properties *)

(** ** Objects *)

Lemma lookup_set_field_same k v o : lookup_field k (set_field k v o) = Some v.
Proof.
  induction o as [|[k' v'] o IH]; simpl.
  - by rewrite String.eqb_refl.
  - destruct (String.eqb k k') eqn:E; simpl; rewrite ?String.eqb_refl, ?E; done.
Qed.

Lemma lookup_set_field_other k k' v o :
  k <> k' -> lookup_field k (set_field k' v o) = lookup_field k o.
Proof.
  intros Hne. apply String.eqb_neq in Hne.
  induction o as [|[k2 v2] o IH]; simpl.
  - by rewrite Hne.
  - destruct (String.eqb k' k2) eqn:E; simpl.
    + apply String.eqb_eq in E. subst k2. by rewrite Hne.
    + by rewrite IH.
Qed.

Lemma get_set_field_same k v o : get_field k (set_field k v o) = v.
Proof. unfold get_field. by rewrite lookup_set_field_same. Qed.

Lemma get_set_field_other k k' v o :
  k <> k' -> get_field k (set_field k' v o) = get_field k o.
Proof. intros. unfold get_field. by rewrite lookup_set_field_other. Qed.

Lemma has_key_set_field k k' v o :
  has_key k (set_field k' v o) = String.eqb k k' || has_key k o.
Proof.
  unfold has_key. destruct (String.eqb k k') eqn:E.
  - apply String.eqb_eq in E. subst. by rewrite lookup_set_field_same.
  - apply String.eqb_neq in E. by rewrite lookup_set_field_other.
Qed.

(** ** What handler code leaves alone *)

Lemma keeps_ret {A} (a : A) : keeps_posted (ret a).
Proof. done. Qed.

Lemma keeps_throw {A} e : keeps_posted (@throw A e).
Proof. done. Qed.

Lemma keeps_throw_error {A} msg : keeps_posted (@throw_error A msg).
Proof. done. Qed.

Lemma keeps_read {A} (f : Host -> A) : keeps_posted (read f).
Proof. done. Qed.

Lemma keeps_bind {A B} (m : M A) (k : A -> M B) :
  keeps_posted m -> (forall a, keeps_posted (k a)) -> keeps_posted (bind m k).
Proof.
  intros Hm Hk h. unfold bind. specialize (Hm h).
  destruct (m h) as [h' [a|e]]; simpl in *; [|done].
  by rewrite Hk.
Qed.

Lemma keeps_host_call api c effect :
  (forall h, posted (effect h) = posted h) -> keeps_posted (host_call api c effect).
Proof.
  intros He h. unfold host_call. destruct (host_rejects api c h); simpl; [done|apply He].
Qed.

Lemma keeps_type_error {A} api what : keeps_posted (@type_error api A what).
Proof. done. Qed.

Create HintDb keeps.
#[local] Hint Resolve @keeps_ret @keeps_throw @keeps_throw_error @keeps_read
  @keeps_type_error : keeps.

(** One step through the structure of handler code. *)
Ltac keeps_step :=
  match goal with
  | |- keeps_posted (bind _ _) => apply keeps_bind; [|intros]
  | |- keeps_posted (host_call _ _ _) => apply keeps_host_call; intros; reflexivity
  | |- keeps_posted (match ?x with _ => _ end) => destruct x
  | |- keeps_posted _ => solve [auto with keeps]
  end.

Ltac keeps := repeat keeps_step.

Section Keeps.

Variable api : HostApi.

Lemma keeps_member v k : keeps_posted (member api v k).
Proof. unfold member. keeps. Qed.

Lemma keeps_call_startsWith v p : keeps_posted (call_startsWith api v p).
Proof. unfold call_startsWith. keeps. Qed.

Lemma keeps_call_toUpperCase v : keeps_posted (call_toUpperCase api v).
Proof. unfold call_toUpperCase. keeps. Qed.

Lemma keeps_spread v : keeps_posted (spread api v).
Proof. unfold spread. keeps. Qed.

Lemma keeps_template v : keeps_posted (template api v).
Proof. unfold template. keeps. Qed.

Hint Resolve keeps_member keeps_call_startsWith keeps_call_toUpperCase
  keeps_spread keeps_template : keeps.

Lemma keeps_assign_node_prop r k v : keeps_posted (assign_node_prop api r k v).
Proof. unfold assign_node_prop. keeps. Qed.

Lemma keeps_put_solid paints color : keeps_posted (put_solid api paints color).
Proof. unfold put_solid. keeps. Qed.

Lemma keeps_put_gradient paints g : keeps_posted (put_gradient api paints g).
Proof. unfold put_gradient. keeps. Qed.

Hint Resolve keeps_assign_node_prop keeps_put_solid keeps_put_gradient : keeps.

Lemma keeps_apply_color_style k node styleId :
  keeps_posted (apply_color_style api k node styleId).
Proof. unfold apply_color_style, getStyleById. keeps. Qed.

Lemma keeps_createOrUpdateColorStyle name color :
  keeps_posted (createOrUpdateColorStyle api name color).
Proof.
  unfold createOrUpdateColorStyle, createPaintStyle, assign_style_name,
    assign_style_paints. keeps.
Qed.

Hint Resolve keeps_apply_color_style keeps_createOrUpdateColorStyle : keeps.

Lemma keeps_case label body params :
  In (label, body) (command_table api) -> keeps_posted (body params).
Proof.
  unfold command_table. simpl.
  intros H; repeat (destruct H as [H|H]; [inversion H; subst; clear H|]);
    try contradiction.
  - unfold case_get_selection, selected_nodes. keeps.
  - unfold case_get_selection_details, selected_nodes. keeps.
  - unfold case_create_rectangle, createRectangle, viewport_center_x,
      viewport_center_y, scrollAndZoomIntoView, assign_selection, node_id_of. keeps.
  - unfold case_create_text, createText, viewport_center_x,
      viewport_center_y, scrollAndZoomIntoView, assign_selection, node_id_of. keeps.
  - unfold case_get_selection_2, selected_nodes. keeps.
  - unfold case_get_color_styles. keeps.
  - unfold case_create_color_style. keeps.
  - unfold case_export_selection, exportAsync. keeps.
  - unfold case_set_fill_color, applyFillColorStyle, setFillColor,
      setFillGradient, node_prop. keeps.
  - unfold case_set_stroke_color, applyStrokeColorStyle, setStrokeColor,
      setStrokeGradient, node_prop. keeps.
  - unfold case_set_stroke_weight, setStrokeWeight. keeps.
  - unfold case_set_effect, setEffect, node_prop. keeps.
  - unfold case_figma_ping. keeps.
  - unfold case_list_functions. keeps.
Qed.

End Keeps.

Lemma defined_ret v : v <> VUndef -> defined (ret v).
Proof. intros Hv h h' r [= _ <-]. done. Qed.

Lemma defined_throw_error msg : defined (throw_error msg).
Proof. intros h h' r [=]. Qed.

Lemma defined_bind {A} (m : M A) (k : A -> M value) :
  (forall a, defined (k a)) -> defined (bind m k).
Proof.
  intros Hk h h' r. unfold bind.
  destruct (m h) as [h1 [a|e]]; [apply Hk|intros [=]].
Qed.

Ltac defined_step :=
  match goal with
  | |- defined (bind _ _) => apply defined_bind; intros
  | |- defined (ret _) => apply defined_ret; discriminate
  | |- defined (throw_error _) => apply defined_throw_error
  | |- defined (match ?x with _ => _ end) => destruct x
  end.

Lemma defined_case api label body params :
  In (label, body) (command_table api) -> defined (body params).
Proof.
  unfold command_table. simpl.
  intros H; repeat (destruct H as [H|H]; [inversion H; subst; clear H|]);
    try contradiction.
  - unfold case_get_selection. repeat defined_step.
  - unfold case_get_selection_details. repeat defined_step.
  - unfold case_create_rectangle. repeat defined_step.
  - unfold case_create_text. repeat defined_step.
  - unfold case_get_selection_2. repeat defined_step.
  - unfold case_get_color_styles. repeat defined_step.
  - unfold case_create_color_style. repeat defined_step.
  - unfold case_export_selection. repeat defined_step.
  - unfold case_set_fill_color. repeat defined_step.
  - unfold case_set_stroke_color. repeat defined_step.
  - unfold case_set_stroke_weight. repeat defined_step.
  - unfold case_set_effect. repeat defined_step.
  - unfold case_figma_ping. repeat defined_step.
  - unfold case_list_functions. repeat defined_step.
Qed.

(** ** The dispatcher *)

Lemma keeps_switch api method params cases :
  (forall label body, In (label, body) cases -> keeps_posted (body params)) ->
  keeps_posted (switch api method cases params).
Proof.
  induction cases as [|[label body] rest IH]; intros Hall; simpl.
  - apply keeps_bind; [apply keeps_template|intros; apply keeps_throw_error].
  - destruct (strict_eq method (VStr label)).
    + apply (Hall label). by left.
    + apply IH. intros l b Hin. apply (Hall l). by right.
Qed.

Lemma defined_switch api method params cases :
  (forall label body, In (label, body) cases -> defined (body params)) ->
  defined (switch api method cases params).
Proof.
  induction cases as [|[label body] rest IH]; intros Hall; simpl.
  - apply defined_bind. intros. apply defined_throw_error.
  - destruct (strict_eq method (VStr label)).
    + apply (Hall label). by left.
    + apply IH. intros l b Hin. apply (Hall l). by right.
Qed.

(** C1. Every command object handled by the dispatcher gets exactly one
    response: [dispatch] returns normally whatever the case did (also when
    it threw, or when the host refused a call), it has appended exactly one
    message to what was posted, that message carries the command's [id],
    and next to the [id] it holds either a [result], which is not
    [undefined], or an [error] with a [message], never both and never
    neither. *)
Theorem dispatch_posts_one_response (api : HostApi) (msg : object) (h : Host) :
  exists h' body,
    dispatch api msg h = (h', Returned tt) /\
    posted h' = (posted h ++ [VObj (("id", get_field "id" msg) :: body)])%list /\
    ((exists r, body = [("result", r)] /\ r <> VUndef) \/
     (exists m, body = [("error", VObj [("message", VStr m)])])) /\
    xorb (has_key "result" (("id", get_field "id" msg) :: body))
         (has_key "error" (("id", get_field "id" msg) :: body)) = true.
Proof.
  unfold dispatch, try_catch.
  set (method := get_field "method" msg).
  set (params := without_keys ["method"; "id"] msg).
  pose proof (keeps_switch api method params (command_table api)
                (fun l b => keeps_case api l b params) h) as Hkeep.
  pose proof (defined_switch api method params (command_table api)
                (fun l b => defined_case api l b params) h) as Hdef.
  unfold bind.
  destruct (switch api method (command_table api) params h) as [h1 [r|e]];
    simpl in Hkeep.
  - exists (log_post (VObj [("id", get_field "id" msg); ("result", r)]) h1),
      [("result", r)].
    repeat split.
    + simpl. by rewrite Hkeep.
    + left. exists r. split; [done|]. by apply (Hdef h1).
  - exists (log_post (VObj [("id", get_field "id" msg);
                            ("error", VObj [("message", VStr (error_message api e))])]) h1),
      [("error", VObj [("message", VStr (error_message api e))])].
    repeat split.
    + simpl. by rewrite Hkeep.
    + right. by eexists.
Qed.

Lemma switch_exact api m cases params :
  switch api (VStr m) cases params =
  match find (fun c => String.eqb m (fst c)) cases with
  | Some c => snd c params
  | None => throw_error ("Unknown command: " ++ m)
  end.
Proof.
  induction cases as [|[label body] rest IH]; simpl; [done|].
  destruct (String.eqb m label); [done|apply IH].
Qed.

Lemma find_label_none {B} m (cases : list (string * B)) :
  ~ In m (map fst cases) -> find (fun c => String.eqb m (fst c)) cases = None.
Proof.
  induction cases as [|[label body] rest IH]; simpl; [done|].
  intros Hnot. destruct (String.eqb m label) eqn:E.
  - apply String.eqb_eq in E. destruct Hnot. by left.
  - apply IH. intros Hin. apply Hnot. by right.
Qed.

(** C6. The [switch] picks a case by string equality alone: for a method
    string [m] it runs the first case whose label is equal to [m], and
    when no label is equal to [m] (a prefix of a label, a label with a
    wildcard, anything else) the one response posted is an error whose
    message is "Unknown command: " followed by [m]. *)
Theorem unknown_command_is_reported (api : HostApi) (msg : object) (m : string) (h : Host) :
  get_field "method" msg = VStr m ->
  (forall params,
     switch api (VStr m) (command_table api) params =
     match find (fun c => String.eqb m (fst c)) (command_table api) with
     | Some c => snd c params
     | None => throw_error ("Unknown command: " ++ m)
     end) /\
  (~ In m (labels api) ->
   dispatch api msg h =
   (log_post (VObj [("id", get_field "id" msg);
                    ("error", VObj [("message", VStr ("Unknown command: " ++ m))])]) h,
    Returned tt)).
Proof.
  intros Hm. split; [intros; apply switch_exact|].
  intros Hnot. unfold dispatch, try_catch, bind. rewrite Hm, switch_exact.
  by rewrite (find_label_none m (command_table api) Hnot).
Qed.

Lemma unknown_command_is_reported_witness :
  dispatch Fixture.api [("id", VStr "7"); ("method", VStr "get-select")] Fixture.empty =
  (log_post (VObj [("id", VStr "7");
                   ("error", VObj [("message", VStr "Unknown command: get-select")])])
            Fixture.empty,
   Returned tt).
Proof.
  refine (proj2 (unknown_command_is_reported Fixture.api
                   [("id", VStr "7"); ("method", VStr "get-select")]
                   "get-select" Fixture.empty _) _).
  - reflexivity.
  - vm_compute. intros H. repeat (destruct H as [H|H]; [discriminate H|]). exact H.
Defined.

(** ** The catalog *)

(** C5, as the claim states it, fails: [get-selection] is a command of the
    dispatch table, other than [list-functions], and no entry of the
    catalog bears that name. *)
Lemma catalog_names_are_not_command_names :
  In "get-selection" (labels Fixture.api) /\
  "get-selection" <> "list-functions" /\
  forall e, In e catalog -> entry_name e <> VStr "get-selection".
Proof.
  split; [by left|]. split; [done|].
  intros e He. simpl in He.
  repeat (destruct He as [He|He]; [subst e; discriminate|]). destruct He.
Qed.

(** C5, amended. [list-functions] returns the same catalog whatever the
    parameters and the document, and leaves the document alone; for every
    other command of the dispatch table the catalog holds an entry whose
    name is the command name with its hyphens turned into dots, with a
    description and a schema of described, typed parameters and a list of
    required parameters. *)
Theorem catalog_covers_commands (api : HostApi) (m : string) :
  (forall params h,
     case_list_functions params h = (h, Returned (VObj [("functions", VArr catalog)]))) /\
  (In m (labels api) -> m <> "list-functions" ->
   exists e, In e catalog /\
             entry_name e = VStr (dotted m) /\
             entry_described e = true).
Proof.
  split; [done|].
  intros Hin Hne.
  assert (exists e, catalog_entry_for m = Some e) as [e He].
  { unfold labels, command_table in Hin. simpl in Hin.
    repeat (destruct Hin as [<-|Hin];
            [first [by destruct Hne | eexists; reflexivity]|]).
    destruct Hin. }
  exists e. unfold catalog_entry_for in He.
  apply find_some in He as [Hin' Hb].
  apply andb_true_iff in Hb as [Hname Hdesc].
  split; [done|]. split; [|done].
  destruct (entry_name e); try discriminate.
  simpl in Hname. apply String.eqb_eq in Hname. by subst.
Qed.

Lemma catalog_covers_commands_witness :
  exists e, In e catalog /\
            entry_name e = VStr "export.selection" /\
            entry_described e = true.
Proof.
  refine (proj2 (catalog_covers_commands Fixture.api "export-selection") _ _).
  - unfold labels. simpl. tauto.
  - discriminate.
Defined.

(** ** The property projector *)



Lemma has_key_getNodeProperties k node :
  has_key k (getNodeProperties node) =
  existsb (String.eqb k) ["id"; "type"; "name"; "visible"; "locked"]
  || existsb (String.eqb k) ["width"; "height"]
     && (has_key "width" (node_props node) && has_key "height" (node_props node))
  || existsb (String.eqb k) ["x"; "y"]
     && (has_key "x" (node_props node) && has_key "y" (node_props node))
  || String.eqb k "fills" && has_key "fills" (node_props node)
  || existsb (String.eqb k) ["strokes"; "strokeWeight"]
     && has_key "strokes" (node_props node).
Proof.
  unfold getNodeProperties.
  destruct (has_key "width" (node_props node)), (has_key "height" (node_props node)),
    (has_key "x" (node_props node)), (has_key "y" (node_props node)),
    (has_key "fills" (node_props node)), (has_key "strokes" (node_props node));
    cbn [andb]; rewrite ?has_key_set_field; unfold has_key; cbn;
    repeat match goal with
           | |- context [String.eqb k ?s] =>
               destruct (String.eqb k s); cbn; try reflexivity
           end.
Qed.

Lemma identity_of_getNodeProperties node :
  lookup_field "id" (getNodeProperties node) = Some (VStr (node_id node)) /\
  lookup_field "type" (getNodeProperties node) = Some (VStr (node_type node)) /\
  lookup_field "name" (getNodeProperties node) = Some (VStr (node_name node)) /\
  lookup_field "visible" (getNodeProperties node)
    = Some (get_field "visible" (node_props node)) /\
  lookup_field "locked" (getNodeProperties node)
    = Some (get_field "locked" (node_props node)).
Proof.
  unfold getNodeProperties.
  destruct (has_key "width" (node_props node) && has_key "height" (node_props node)),
    (has_key "x" (node_props node) && has_key "y" (node_props node)),
    (has_key "fills" (node_props node)), (has_key "strokes" (node_props node));
    rewrite ?lookup_set_field_other by done; unfold has_key, get_field; simpl;
    destruct (lookup_field "visible" (node_props node)),
      (lookup_field "locked" (node_props node)); by repeat split.
Qed.




(** ** Paints *)

Lemma paint_list_after_set k node v h :
  get_field k (node_props (nodes (set_node_prop node k v h) node)) = v.
Proof.
  unfold set_node_prop, with_node. simpl. rewrite Nat.eqb_refl. simpl.
  apply get_set_field_same.
Qed.

Lemma assign_node_prop_accepted api node k v h :
  host_rejects api (SetNodeProp node k v) h = None ->
  assign_node_prop api node k v h = (set_node_prop node k v h, Returned tt).
Proof. intros Hok. unfold assign_node_prop, host_call. by rewrite Hok. Qed.

Lemma put_solid_spec api paints color h :
  (paints = [] -> put_solid api paints color h = (h, Returned [solid_paint color])) /\
  (forall p rest, paints = VObj p :: rest ->
     put_solid api paints color h =
     (h, Returned (if strict_eq (get_field "type" p) (VStr "SOLID")
                   then solid_paint color :: rest
                   else solid_paint color :: paints))).
Proof.
  split; [by intros ->|]. intros p rest ->. unfold put_solid, bind. simpl.
  by destruct (strict_eq (get_field "type" p) (VStr "SOLID")).
Qed.

Lemma put_gradient_spec api paints gradient h :
  (paints = [] -> put_gradient api paints gradient h = (h, Returned [gradient])) /\
  (forall p rest t, paints = VObj p :: rest -> get_field "type" p = VStr t ->
     put_gradient api paints gradient h =
     (h, Returned (if startsWith "GRADIENT" t
                   then gradient :: rest
                   else gradient :: paints))).
Proof.
  split; [by intros ->|]. intros p rest t -> Ht. unfold put_gradient, bind. simpl.
  rewrite Ht. simpl. by destruct (startsWith "GRADIENT" t).
Qed.

Lemma set_solid_unfold api stroke node color h :
  set_solid api stroke node color h =
  match put_solid api (paint_list (paint_key stroke) node h) color h with
  | (h', Returned paints) =>
      assign_node_prop api node (paint_key stroke) (VArr paints) h'
  | (h', Threw e) => (h', Threw e)
  end.
Proof. by destruct stroke. Qed.

Lemma set_gradient_unfold api stroke node gradient h :
  set_gradient api stroke node gradient h =
  match put_gradient api (paint_list (paint_key stroke) node h) gradient h with
  | (h', Returned paints) =>
      assign_node_prop api node (paint_key stroke) (VArr paints) h'
  | (h', Threw e) => (h', Threw e)
  end.
Proof. by destruct stroke. Qed.

Lemma apply_style_unfold api stroke node styleId h :
  apply_style api stroke node styleId h =
  apply_color_style api (paint_key stroke) node styleId h.
Proof. by destruct stroke. Qed.

(** C2. For fills and for strokes alike, on a node whose paint
    assignments the host accepts.  Applying a style that exists and has
    paints makes the style's paint list the node's whole paint list.
    Setting a solid color overwrites the first paint alone when that paint
    has type SOLID, and setting a gradient overwrites the first paint
    alone when that paint's type starts with GRADIENT; otherwise, and when
    the node has no paints, the new paint goes in front of the old list,
    which stays whole behind it. *)
Theorem paint_list_after_setting (api : HostApi) (stroke : bool) (node : nat)
    (h : Host) (old : list value) :
  paint_list (paint_key stroke) node h = old ->
  (forall v, host_rejects api (SetNodeProp node (paint_key stroke) v) h = None) ->
  (forall styleId i style,
     find_indexed (fun s => strict_eq (VStr (style_id s)) styleId) (paint_styles h)
       = Some (i, style) ->
     style_paints style <> [] ->
     exists h', apply_style api stroke node styleId h = (h', Returned tt) /\
                paint_list (paint_key stroke) node h' = style_paints style) /\
  (forall color new,
     (old = [] /\ new = [solid_paint color]) \/
     (exists p rest, old = VObj p :: rest /\
        get_field "type" p = VStr "SOLID" /\ new = solid_paint color :: rest) \/
     (exists p rest, old = VObj p :: rest /\
        get_field "type" p <> VStr "SOLID" /\ new = solid_paint color :: old) ->
     exists h', set_solid api stroke node color h = (h', Returned tt) /\
                paint_list (paint_key stroke) node h' = new) /\
  (forall gradient new,
     (old = [] /\ new = [gradient]) \/
     (exists p rest t, old = VObj p :: rest /\ get_field "type" p = VStr t /\
        startsWith "GRADIENT" t = true /\ new = gradient :: rest) \/
     (exists p rest t, old = VObj p :: rest /\ get_field "type" p = VStr t /\
        startsWith "GRADIENT" t = false /\ new = gradient :: old) ->
     exists h', set_gradient api stroke node gradient h = (h', Returned tt) /\
                paint_list (paint_key stroke) node h' = new).
Proof.
  intros Hold Hok. repeat split.
  - intros styleId i style Hfind Hpaints.
    exists (set_node_prop node (paint_key stroke) (VArr (style_paints style)) h).
    rewrite apply_style_unfold. unfold apply_color_style, getStyleById, bind, read.
    rewrite Hfind. destruct (style_paints style) as [|p ps] eqn:E; [done|]. simpl.
    rewrite assign_node_prop_accepted by apply Hok.
    split; [done|]. unfold paint_list. by rewrite paint_list_after_set.
  - intros color new Hcases.
    exists (set_node_prop node (paint_key stroke) (VArr new) h).
    rewrite set_solid_unfold, Hold.
    destruct (put_solid_spec api old color h) as [Hnil Hcons].
    assert (put_solid api old color h = (h, Returned new)) as ->.
    { destruct Hcases as [[-> ->]|[(p & rest & -> & Hty & ->)|(p & rest & -> & Hty & ->)]].
      - by apply Hnil.
      - rewrite (Hcons p rest eq_refl), Hty. done.
      - rewrite (Hcons p rest eq_refl).
        destruct (get_field "type" p) as [| |b|q|s|l|o|d]; try done.
        simpl. destruct (String.eqb s "SOLID") eqn:Es; [|done].
        apply String.eqb_eq in Es. by subst. }
    rewrite assign_node_prop_accepted by apply Hok.
    split; [done|]. unfold paint_list. by rewrite paint_list_after_set.
  - intros gradient new Hcases.
    exists (set_node_prop node (paint_key stroke) (VArr new) h).
    rewrite set_gradient_unfold, Hold.
    destruct (put_gradient_spec api old gradient h) as [Hnil Hcons].
    assert (put_gradient api old gradient h = (h, Returned new)) as ->.
    { destruct Hcases as [[-> ->]|[(p & rest & t & -> & Hty & Hg & ->)
                                  |(p & rest & t & -> & Hty & Hg & ->)]].
      - by apply Hnil.
      - by rewrite (Hcons p rest t eq_refl Hty), Hg.
      - by rewrite (Hcons p rest t eq_refl Hty), Hg. }
    rewrite assign_node_prop_accepted by apply Hok.
    split; [done|]. unfold paint_list. by rewrite paint_list_after_set.
Qed.

Lemma paint_list_after_setting_witness :
  (exists h', set_solid Fixture.api false 0 Fixture.red Fixture.rectangle_selected
                = (h', Returned tt) /\
              paint_list "fills" 0 h' = [solid_paint Fixture.red]) /\
  (exists h', set_gradient Fixture.api false 0 (VObj [("type", VStr "GRADIENT_LINEAR")])
                Fixture.rectangle_selected = (h', Returned tt) /\
              paint_list "fills" 0 h' =
              [VObj [("type", VStr "GRADIENT_LINEAR")]; solid_paint Fixture.grey]).
Proof.
  pose proof (paint_list_after_setting Fixture.api false 0 Fixture.rectangle_selected
                [solid_paint Fixture.grey] eq_refl (fun _ => eq_refl))
    as (_ & Hsolid & Hgradient).
  split.
  - apply Hsolid. right. left.
    exists [("type", VStr "SOLID"); ("color", Fixture.grey)], []. by repeat split.
  - apply Hgradient. right. right.
    exists [("type", VStr "SOLID"); ("color", Fixture.grey)], [], "SOLID".
    by repeat split.
Defined.

(** ** Export *)

(** C3, as the claim states it, fails: with a selected node whose type is
    outside the allow-list and no [format] parameter, the failure is about
    the format and does not name the node's type. *)
Lemma unsupported_type_without_format :
  selection Fixture.bare_selected = [0%nat] /\
  node_type (nodes Fixture.bare_selected 0) = "TEXT_PATH" /\
  isExportable (nodes Fixture.bare_selected 0) = false /\
  case_export_selection Fixture.api [] Fixture.bare_selected =
  (Fixture.bare_selected, Threw (ThrowError "Format is required for exporting.")).
Proof. by repeat split. Qed.

(** Exporting to PNG or JPG from an exportable first selected node. *)
Lemma export_raster api params h r rest f settings :
  selection h = r :: rest -> isExportable (nodes h r) = true ->
  get_field "format" params = VStr f ->
  (toUpperCase f = "PNG" \/ toUpperCase f = "JPG") ->
  settings = VObj [("format", VStr (toUpperCase f));
                   ("constraint",
                    VObj [("type", VStr "SCALE");
                          ("value", js_or (get_field "scale" params) (VNum 1))])] ->
  host_rejects api (ExportAsync r settings) h = None ->
  case_export_selection api params h =
  (log_export r settings h,
   Returned (VObj [("data", export_data api r settings h);
                   ("format", VStr f);
                   ("scale", js_or (get_field "scale" params) (VNum 1))])).
Proof.
  intros Hsel He Hf HF -> Hok.
  unfold case_export_selection, bind, read. rewrite Hsel, Hf.
  assert (truthy (VStr f) = true) as ->
      by (destruct f; [by destruct HF|done]).
  simpl. rewrite He. simpl.
  unfold exportAsync, host_call, bind, read, scale_constraint.
  destruct HF as [HF|HF]; rewrite HF in *; simpl; by rewrite Hok.
Qed.

(** C3, amended. [export-selection] looks at the first selected node.
    With nothing selected it fails with "Please select a node to export."
    and makes no host call.  With a [format] parameter that is not falsy
    and a node whose type is outside the allow-list it fails naming that
    type, again with no host call; with a falsy or missing [format] it
    fails asking for the format, whatever the node.  On an exportable node
    the format is matched through [toUpperCase]: PNG and JPG export with
    the upper-case format and a SCALE constraint holding [scale || 1], SVG
    and PDF export with the upper-case format alone, and any other text
    fails as unsupported, as does a format that is not a string. *)
Theorem export_selection_behaviour (api : HostApi) (params : object) (h : Host) :
  (selection h = [] ->
   case_export_selection api params h =
   (h, Threw (ThrowError "Please select a node to export."))) /\
  (forall r rest, selection h = r :: rest ->
     (truthy (get_field "format" params) = false ->
      case_export_selection api params h =
      (h, Threw (ThrowError "Format is required for exporting."))) /\
     (truthy (get_field "format" params) = true ->
      isExportable (nodes h r) = false ->
      case_export_selection api params h =
      (h, Threw (ThrowError ("Node type " ++ node_type (nodes h r)
                               ++ " is not exportable.")))) /\
     (isExportable (nodes h r) = true ->
      (forall f settings,
         get_field "format" params = VStr f ->
         (toUpperCase f = "PNG" \/ toUpperCase f = "JPG") ->
         settings = VObj [("format", VStr (toUpperCase f));
                          ("constraint",
                           VObj [("type", VStr "SCALE");
                                 ("value", js_or (get_field "scale" params) (VNum 1))])] ->
         host_rejects api (ExportAsync r settings) h = None ->
         case_export_selection api params h =
         (log_export r settings h,
          Returned (VObj [("data", export_data api r settings h);
                          ("format", VStr f);
                          ("scale", js_or (get_field "scale" params) (VNum 1))]))) /\
      (forall f settings,
         get_field "format" params = VStr f ->
         (toUpperCase f = "SVG" \/ toUpperCase f = "PDF") ->
         settings = VObj [("format", VStr (toUpperCase f))] ->
         host_rejects api (ExportAsync r settings) h = None ->
         case_export_selection api params h =
         (log_export r settings h,
          Returned (VObj [("data", export_data api r settings h);
                          ("format", VStr f);
                          ("scale", js_or (get_field "scale" params) (VNum 1))]))) /\
      (forall f,
         get_field "format" params = VStr f -> f <> "" ->
         ~ In (toUpperCase f) ["PNG"; "JPG"; "SVG"; "PDF"] ->
         case_export_selection api params h =
         (h, Threw (ThrowError ("Unsupported export format: " ++ f)))) /\
      (truthy (get_field "format" params) = true ->
       is_string (get_field "format" params) = false ->
       case_export_selection api params h =
       (h, Threw (ThrowError (type_error_message api "toUpperCase is not a function")))))).
Proof.
  split.
  - intros Hsel. unfold case_export_selection, bind, read. by rewrite Hsel.
  - intros r rest Hsel.
    split; [intros Ht; unfold case_export_selection, bind, read;
            by rewrite Hsel, Ht|].
    split; [intros Ht He; unfold case_export_selection, bind, read;
            rewrite Hsel, Ht; simpl; by rewrite He|].
    intros He. repeat split.
    + intros f settings Hf HF Hset Hok.
      by apply (export_raster api params h r rest f settings).
    + intros f settings Hf HF -> Hok.
      unfold case_export_selection, bind, read. rewrite Hsel, Hf.
      assert (truthy (VStr f) = true) as ->
          by (destruct f; [by destruct HF|done]).
      simpl. rewrite He. simpl. unfold exportAsync, host_call, bind, read.
      destruct HF as [HF|HF]; rewrite HF in *; simpl; by rewrite Hok.
    + intros f Hf Hne Hnot.
      unfold case_export_selection, bind, read. rewrite Hsel, Hf.
      assert (truthy (VStr f) = true) as -> by (by destruct f).
      simpl. rewrite He. simpl.
      destruct (String.eqb (toUpperCase f) "PNG") eqn:E1;
        [apply String.eqb_eq in E1; destruct Hnot; rewrite E1; simpl; tauto|].
      destruct (String.eqb (toUpperCase f) "JPG") eqn:E2;
        [apply String.eqb_eq in E2; destruct Hnot; rewrite E2; simpl; tauto|].
      destruct (String.eqb (toUpperCase f) "SVG") eqn:E3;
        [apply String.eqb_eq in E3; destruct Hnot; rewrite E3; simpl; tauto|].
      destruct (String.eqb (toUpperCase f) "PDF") eqn:E4;
        [apply String.eqb_eq in E4; destruct Hnot; rewrite E4; simpl; tauto|].
      done.
    + intros Ht Hstr.
      unfold case_export_selection, bind, read. rewrite Hsel, Ht. simpl.
      rewrite He. simpl. by destruct (get_field "format" params).
Qed.

Lemma export_selection_behaviour_witness :
  case_export_selection Fixture.api [("format", VStr "pNg")] Fixture.rectangle_selected =
  (log_export 0 (VObj [("format", VStr "PNG");
                       ("constraint", VObj [("type", VStr "SCALE"); ("value", VNum 1)])])
     Fixture.rectangle_selected,
   Returned (VObj [("data", VArr []); ("format", VStr "pNg"); ("scale", VNum 1)])).
Proof.
  pose proof (export_selection_behaviour Fixture.api [("format", VStr "pNg")]
                Fixture.rectangle_selected) as [_ H].
  destruct (H 0%nat [] eq_refl) as (_ & _ & Hexp).
  destruct (Hexp eq_refl) as (Hpng & _).
  exact (Hpng "pNg" _ eq_refl (or_introl eq_refl) eq_refl eq_refl).
Defined.

(** ** Creating nodes *)

Lemma host_call_accepted api c effect h :
  host_rejects api c h = None -> host_call api c effect h = (effect h, Returned tt).
Proof. intros Hok. unfold host_call. by rewrite Hok. Qed.

(** C9. A coordinate parameter equal to 0 is falsy, so [create-rectangle]
    and [create-text] fall back on the viewport center: when the host
    accepts the calls, the node created, which becomes the selection, has
    its [x] (respectively [y]) at the viewport center's.  Likewise a
    [scale] equal to 0 makes a PNG or JPG export use the SCALE constraint
    1. *)
Theorem zero_is_treated_as_absent (api : HostApi) (params : object) (h : Host) :
  (forall c h', host_rejects api c h' = None) ->
  (get_field "x" params = VNum 0 ->
   (let h' := fst (case_create_rectangle api params h) in
    selection h' = [node_count h] /\
    get_field "x" (node_props (nodes h' (node_count h)))
      = VNum (center_x (viewport h))) /\
   (let h' := fst (case_create_text api params h) in
    selection h' = [node_count h] /\
    get_field "x" (node_props (nodes h' (node_count h)))
      = VNum (center_x (viewport h)))) /\
  (get_field "y" params = VNum 0 ->
   (let h' := fst (case_create_rectangle api params h) in
    selection h' = [node_count h] /\
    get_field "y" (node_props (nodes h' (node_count h)))
      = VNum (center_y (viewport h))) /\
   (let h' := fst (case_create_text api params h) in
    selection h' = [node_count h] /\
    get_field "y" (node_props (nodes h' (node_count h)))
      = VNum (center_y (viewport h)))) /\
  (get_field "scale" params = VNum 0 ->
   forall r rest f,
     selection h = r :: rest -> isExportable (nodes h r) = true ->
     get_field "format" params = VStr f ->
     toUpperCase f = "PNG" \/ toUpperCase f = "JPG" ->
     exported (fst (case_export_selection api params h)) =
     (exported h ++
      [(r, VObj [("format", VStr (toUpperCase f));
                 ("constraint", VObj [("type", VStr "SCALE"); ("value", VNum 1)])])])%list).
Proof.
  intros Hok.
  split; [|split].
  1, 2: intros Hzero; split; split;
    unfold case_create_rectangle, case_create_text, createRectangle, createText,
      assign_node_prop, scrollAndZoomIntoView, assign_selection,
      viewport_center_x, viewport_center_y, bind, read;
    repeat (rewrite host_call_accepted by apply Hok; simpl);
    repeat (rewrite Nat.eqb_refl; simpl);
    rewrite ?Hzero; simpl;
    rewrite ?get_set_field_same;
    repeat (rewrite get_set_field_other by done; rewrite ?get_set_field_same);
    done.
  intros Hzero r rest f Hsel Hexp Hf HF.
  rewrite (export_raster api params h r rest f _ Hsel Hexp Hf HF eq_refl (Hok _ _)).
  simpl. by rewrite Hzero.
Qed.

Lemma zero_is_treated_as_absent_witness :
  (let h' := fst (case_create_rectangle Fixture.api
                    [("x", VNum 0); ("y", VNum 0); ("scale", VNum 0);
                     ("format", VStr "jpg")] Fixture.rectangle_selected) in
   selection h' = [1%nat] /\
   get_field "x" (node_props (nodes h' 1)) = VNum 40) /\
  exported (fst (case_export_selection Fixture.api
                   [("x", VNum 0); ("y", VNum 0); ("scale", VNum 0);
                    ("format", VStr "jpg")] Fixture.rectangle_selected)) =
  [(0%nat, VObj [("format", VStr "JPG");
                 ("constraint", VObj [("type", VStr "SCALE"); ("value", VNum 1)])])].
Proof.
  pose proof (zero_is_treated_as_absent Fixture.api
                [("x", VNum 0); ("y", VNum 0); ("scale", VNum 0);
                 ("format", VStr "jpg")]
                Fixture.rectangle_selected (fun _ _ => eq_refl))
    as (Hx & _ & Hscale).
  split.
  - exact (proj1 (Hx eq_refl)).
  - exact (Hscale eq_refl 0%nat [] "jpg" eq_refl eq_refl eq_refl (or_intror eq_refl)).
Defined.

(** ** Color styles *)

(** C10, as the claim states it, fails in its last part: in a document
    where two local paint styles are already named "Brand", invoking
    [create-color-style] twice with that name updates the first of them
    and leaves two styles with that name, not one. *)
Lemma second_style_of_a_name_survives :
  styles_named (VStr "Brand") Fixture.two_brands = 2%nat /\
  styles_named (VStr "Brand")
    (fst (case_create_color_style Fixture.api
            [("name", VStr "Brand"); ("color", Fixture.red)]
            (fst (case_create_color_style Fixture.api
                    [("name", VStr "Brand"); ("color", Fixture.red)]
                    Fixture.two_brands)))) = 2%nat.
Proof. by split. Qed.

Lemma find_from_some {A} (p : A -> bool) k l i x :
  find_from p k l = Some (i, x) ->
  exists j, i = (k + j)%nat /\ l !! j = Some x /\ p x = true.
Proof.
  revert k. induction l as [|y l IH]; intros k; simpl; [done|].
  destruct (p y) eqn:E.
  - intros [= <- <-]. exists 0%nat. by rewrite Nat.add_0_r.
  - intros H. apply IH in H as (j & -> & Hj & Hp).
    exists (S j). split; [lia|done].
Qed.

Lemma find_from_none {A} (p : A -> bool) k l :
  find_from p k l = None -> List.filter p l = [].
Proof.
  revert k. induction l as [|y l IH]; intros k; simpl; [done|].
  destruct (p y) eqn:E; [done|]. apply IH.
Qed.

Lemma filter_alter_same {A} (p : A -> bool) (f : A -> A) i l :
  (forall x, p (f x) = p x) ->
  length (List.filter p (alter f i l)) = length (List.filter p l).
Proof.
  intros Hf. revert i. induction l as [|y l IH]; intros i; [done|].
  destruct i as [|i].
  - change (alter f 0%nat (y :: l)) with (f y :: l).
    cbn [List.filter]. rewrite Hf. by destruct (p y).
  - change (alter f (S i) (y :: l)) with (y :: alter f i l).
    cbn [List.filter]. destruct (p y); cbn [length]; by rewrite IH.
Qed.

Lemma alter_last {A} (f : A -> A) l x :
  alter f (length l) (l ++ [x])%list = (l ++ [f x])%list.
Proof.
  induction l as [|y l IH]; [done|].
  change (alter f (length (y :: l)) ((y :: l) ++ [x])%list)
    with (y :: alter f (length l) (l ++ [x])%list).
  by rewrite IH.
Qed.

Section ColorStyles.

Variable api : HostApi.
Hypothesis accepts : forall c h, host_rejects api c h = None.

Variables (params : object) (n : string) (color : value).
Hypothesis name_given : get_field "name" params = VStr n.
Hypothesis name_not_empty : n <> "".
Hypothesis color_given : get_field "color" params = color.
Hypothesis color_truthy : truthy color = true.

Lemma create_color_style_existing h i s :
  find_indexed (fun st => strict_eq (style_name st) (VStr n)) (paint_styles h)
    = Some (i, s) ->
  case_create_color_style api params h =
  (with_paint_styles (alter (set_style_paints [solid_paint color]) i (paint_styles h)) h,
   Returned (VObj [("styleId", VStr (style_id s))])).
Proof.
  intros Hfind. unfold case_create_color_style.
  rewrite name_given, color_given, color_truthy.
  assert (truthy (VStr n) = true) as -> by (by destruct n).
  simpl. unfold createOrUpdateColorStyle, assign_style_paints, bind, read.
  rewrite Hfind. by rewrite host_call_accepted by apply accepts.
Qed.

Lemma create_color_style_new h :
  find_indexed (fun st => strict_eq (style_name st) (VStr n)) (paint_styles h) = None ->
  case_create_color_style api params h =
  (with_paint_styles
     (paint_styles h ++
      [set_style_paints [solid_paint color]
         (set_style_name (VStr n) (new_paint_style api h))])%list h,
   Returned (VObj [("styleId", VStr (style_id (new_paint_style api h)))])).
Proof.
  intros Hfind. unfold case_create_color_style.
  rewrite name_given, color_given, color_truthy.
  assert (truthy (VStr n) = true) as -> by (by destruct n).
  simpl. unfold createOrUpdateColorStyle, createPaintStyle, assign_style_name,
    assign_style_paints, bind, read.
  rewrite Hfind.
  repeat (rewrite host_call_accepted by apply accepts; simpl).
  by rewrite !alter_last.
Qed.

Lemma styles_named_after h :
  styles_named (VStr n) (fst (case_create_color_style api params h)) =
  Nat.max 1 (styles_named (VStr n) h).
Proof.
  destruct (find_indexed (fun st => strict_eq (style_name st) (VStr n)) (paint_styles h))
    as [[i s]|] eqn:Hfind.
  - rewrite (create_color_style_existing h i s Hfind). unfold styles_named. simpl.
    rewrite filter_alter_same by done.
    apply find_from_some in Hfind as (j & _ & Hj & Hp).
    assert (In s (List.filter (fun st => strict_eq (style_name st) (VStr n))
                    (paint_styles h))) as Hin.
    { apply List.filter_In. split; [|done].
      apply list_elem_of_In, list_elem_of_lookup. by exists j. }
    destruct (List.filter _ (paint_styles h)); [destruct Hin|simpl; lia].
  - rewrite (create_color_style_new h Hfind). unfold styles_named. simpl.
    rewrite List.filter_app. apply find_from_none in Hfind. rewrite Hfind. simpl.
    by rewrite String.eqb_refl.
Qed.

End ColorStyles.

(** C10, amended.  With a name that is a non-empty string, a color that is
    not falsy and a host that accepts the calls: when a local paint style
    bears the name, [create-color-style] adds no style, gives the first
    such style the single solid paint of the color as its whole paint
    list, leaves every other style as it was and returns the id of the
    style it updated; when none bears the name it appends one new style
    with that name and that paint and returns its id.  A second invocation
    with the same name therefore adds nothing: after two invocations the
    number of styles with the name is what it was before, or one if there
    was none; it is exactly one when at most one style bore the name
    beforehand. *)
Theorem create_color_style_updates_in_place (api : HostApi)
    (params params2 : object) (n : string) (h : Host) :
  (forall c h', host_rejects api c h' = None) ->
  get_field "name" params = VStr n -> get_field "name" params2 = VStr n ->
  n <> "" ->
  truthy (get_field "color" params) = true ->
  truthy (get_field "color" params2) = true ->
  (forall i s,
     find_indexed (fun st => strict_eq (style_name st) (VStr n)) (paint_styles h)
       = Some (i, s) ->
     exists h',
       case_create_color_style api params h =
         (h', Returned (VObj [("styleId", VStr (style_id s))])) /\
       paint_styles h !! i = Some s /\
       length (paint_styles h') = length (paint_styles h) /\
       paint_styles h' !! i =
         Some (set_style_paints [solid_paint (get_field "color" params)] s) /\
       (forall j, j <> i -> paint_styles h' !! j = paint_styles h !! j)) /\
  (find_indexed (fun st => strict_eq (style_name st) (VStr n)) (paint_styles h) = None ->
   exists h',
     case_create_color_style api params h =
       (h', Returned (VObj [("styleId", VStr (style_id (new_paint_style api h)))])) /\
     paint_styles h' =
       (paint_styles h ++
        [mkPaintStyle (style_id (new_paint_style api h)) (VStr n)
           (style_description (new_paint_style api h))
           [solid_paint (get_field "color" params)]])%list) /\
  styles_named (VStr n)
    (fst (case_create_color_style api params2
            (fst (case_create_color_style api params h))))
  = Nat.max 1 (styles_named (VStr n) h) /\
  ((styles_named (VStr n) h <= 1)%nat ->
   styles_named (VStr n)
     (fst (case_create_color_style api params2
             (fst (case_create_color_style api params h)))) = 1%nat).
Proof.
  intros Hok Hn Hn2 Hne Hc Hc2.
  assert (styles_named (VStr n)
            (fst (case_create_color_style api params2
                    (fst (case_create_color_style api params h))))
          = Nat.max 1 (styles_named (VStr n) h)) as Htwice.
  { rewrite (styles_named_after api Hok params2 n _ Hn2 Hne eq_refl Hc2).
    rewrite (styles_named_after api Hok params n _ Hn Hne eq_refl Hc). lia. }
  repeat split.
  - intros i s Hfind. eexists. split.
    { apply (create_color_style_existing api Hok params n _ Hn Hne eq_refl Hc h i s Hfind). }
    apply find_from_some in Hfind as (j & -> & Hj & _). simpl.
    split; [done|]. split; [apply length_alter|].
    split; [by rewrite list_lookup_alter_eq, Hj|].
    intros j' Hj'. by rewrite list_lookup_alter_ne.
  - intros Hfind.
    rewrite (create_color_style_new api Hok params n _ Hn Hne eq_refl Hc h Hfind).
    eexists. split; reflexivity.
  - exact Htwice.
  - intros Hle. rewrite Htwice. lia.
Qed.

Lemma create_color_style_updates_in_place_witness :
  styles_named (VStr "Brand")
    (fst (case_create_color_style Fixture.api
            [("name", VStr "Brand"); ("color", Fixture.grey)]
            (fst (case_create_color_style Fixture.api
                    [("name", VStr "Brand"); ("color", Fixture.red)]
                    Fixture.empty)))) = 1%nat.
Proof.
  refine (proj2 (proj2 (proj2 (create_color_style_updates_in_place Fixture.api
            [("name", VStr "Brand"); ("color", Fixture.red)]
            [("name", VStr "Brand"); ("color", Fixture.grey)]
            "Brand" Fixture.empty (fun _ _ => eq_refl) eq_refl eq_refl _ eq_refl eq_refl))) _).
  - discriminate.
  - vm_compute. lia.
Defined.

(** ** The transport *)

Section TransportProperties.

Import UI.

Variable JSON_parse : string -> option value.
Variable JSON_stringify : value -> string.

Lemma onclose_schedules event p :
  status_class (onclose event p) = "disconnected" /\
  timers (onclose event p) = (timers p ++ [3000%Z])%list /\
  sockets (onclose event p) = sockets p /\
  ws (onclose event p) = ws p.
Proof. unfold onclose. by destruct (wasClean event). Qed.

Lemma onerror_keeps p :
  ws (onerror p) = ws p /\
  timers (onerror p) = timers p /\
  status_class (onerror p) = status_class p /\
  length (sockets (onerror p)) = length (sockets p) /\
  (forall j, sockets (onerror p) !! j =
             if decide (ws p = Some j) then close_socket <$> sockets p !! j
             else sockets p !! j).
Proof.
  unfold onerror, ws_close. simpl. destruct (ws p) as [s|] eqn:Hws; simpl.
  - do 3 (split; [done|]). split; [apply length_alter|].
    intros j. destruct (decide (Some s = Some j)) as [[= ->]|Hne].
    + apply list_lookup_alter_eq.
    + apply list_lookup_alter_ne. congruence.
  - do 4 (split; [done|]). intros j. try case_decide; done.
Qed.

(** The page the [close] handler finds: the socket closed, and the [error]
    handler run first when the connection failed. *)
Lemma closing_page p s (failed : bool) :
  ws p = Some s -> (s < length (sockets p))%nat ->
  let closed : Page := with_sockets (<[s := CLOSED]> (sockets p)) p in
  let q : Page := if failed then onerror closed else closed in
  ws q = Some s /\ timers q = timers p /\
  length (sockets q) = length (sockets p) /\
  sockets q !! s = Some CLOSED /\
  (forall j, j <> s -> sockets q !! j = sockets p !! j).
Proof.
  intros Hws Hlt closed q. subst q. destruct failed.
  - destruct (onerror_keeps closed) as (-> & -> & _ & -> & Hsockets).
    subst closed. simpl. rewrite length_insert.
    do 3 (split; [done|]). split.
    + rewrite Hsockets. simpl. rewrite decide_True by done.
      by rewrite list_lookup_insert_eq.
    + intros j Hne. rewrite Hsockets. simpl.
      rewrite decide_False by congruence. by apply list_lookup_insert_ne.
  - subst closed. simpl. rewrite length_insert.
    do 3 (split; [done|]). split.
    + by apply list_lookup_insert_eq.
    + intros j Hne. by apply list_lookup_insert_ne.
Qed.

Lemma ws_send_keeps text p :
  ws (fst (ws_send text p)) = ws p /\
  sockets (fst (ws_send text p)) = sockets p /\
  timers (fst (ws_send text p)) = timers p.
Proof.
  unfold ws_send. destruct (ws p) as [s|] eqn:Hws; [|done].
  destruct (sockets p !! s) as [[| | |]|]; done.
Qed.

Lemma window_onmessage_keeps data p :
  ws (fst (window_onmessage JSON_stringify data p)) = ws p /\
  sockets (fst (window_onmessage JSON_stringify data p)) = sockets p /\
  timers (fst (window_onmessage JSON_stringify data p)) = timers p.
Proof.
  unfold window_onmessage. destruct data; try done.
  destruct (truthy _); [apply ws_send_keeps|done].
Qed.

Lemma ws_onmessage_keeps data p :
  ws (ws_onmessage JSON_parse data p) = ws p /\
  sockets (ws_onmessage JSON_parse data p) = sockets p /\
  timers (ws_onmessage JSON_parse data p) = timers p.
Proof. unfold ws_onmessage. by destruct (JSON_parse data). Qed.

(** A socket that is not closed is the current one, and nothing is
    pending while it lives. *)
Lemma live_socket_is_current p s st :
  one_attempt p -> sockets p !! s = Some st -> st <> CLOSED ->
  ws p = Some s /\ length (sockets p) = S s /\ timers p = [] /\
  (forall j st', sockets p !! j = Some st' -> j <> s -> st' = CLOSED).
Proof.
  intros (s0 & st0 & Hws & Hlen & Hold & Hs0 & Hcase) Hs Hlive.
  destruct (decide (s = s0)) as [->|Hne].
  - rewrite Hs0 in Hs. injection Hs as ->.
    destruct Hcase as [[_ Ht]|[-> _]]; done.
  - by destruct Hlive; apply (Hold s).
Qed.

Lemma step_keeps_one_attempt p ev p' :
  one_attempt p -> step JSON_parse JSON_stringify p ev p' -> one_attempt p'.
Proof.
  intros Hinv Hstep.
  destruct Hstep as [p s Hs|p s st event failed Hs Hlive|p s st Hs Hlive|p s data Hs
                    |p data|p i delay Hi].
  - destruct (live_socket_is_current p s CONNECTING Hinv Hs) as (Hws & Hlen & Ht & Hold);
      [done|].
    exists s, OPEN. simpl. rewrite length_insert.
    repeat split; try done.
    + intros j st' Hj Hne. rewrite list_lookup_insert_ne in Hj by done. eauto.
    + apply list_lookup_insert_eq. lia.
    + by left.
  - destruct (live_socket_is_current p s st Hinv Hs Hlive) as (Hws & Hlen & Ht & Hold).
    destruct (closing_page p s failed Hws ltac:(lia))
      as (Hws1 & Ht1 & Hlen1 & Hs1 & Hothers). cbv zeta in *.
    destruct (onclose_schedules event
                (if failed
                 then onerror (with_sockets (<[s:=CLOSED]> (sockets p)) p)
                 else with_sockets (<[s:=CLOSED]> (sockets p)) p))
      as (_ & Htimers & Hsockets & Hws').
    exists s, CLOSED. rewrite Hws', Hsockets, Htimers, Hws1, Ht1, Hlen1, Ht.
    repeat split; try done.
    + intros j st' Hj Hne. rewrite Hothers in Hj by done. eauto.
    + by right.
  - destruct (live_socket_is_current p s st Hinv Hs Hlive) as (Hws & Hlen & Ht & Hold).
    exists s, (close_socket st). unfold onerror, ws_close. simpl. rewrite Hws. simpl.
    rewrite length_alter.
    repeat split; try done.
    + intros j st' Hj Hne. rewrite list_lookup_alter_ne in Hj by done. eauto.
    + by rewrite list_lookup_alter_eq, Hs.
    + left. split; [by destruct st|done].
  - destruct Hinv as (s0 & st0 & Hinv). exists s0, st0.
    destruct (ws_onmessage_keeps data p) as (-> & -> & ->). done.
  - destruct Hinv as (s0 & st0 & Hinv). exists s0, st0.
    destruct (window_onmessage_keeps data p) as (-> & -> & ->). done.
  - destruct Hinv as (s0 & st0 & Hws & Hlen & Hold & Hs0 & Hcase).
    destruct Hcase as [[_ Ht]|[-> Ht]]; rewrite Ht in Hi; [done|].
    destruct i as [|i]; [|done].
    exists (S s0), CONNECTING. simpl. rewrite length_app, Hlen, Ht. simpl.
    repeat split; try done.
    + lia.
    + intros j st' Hj Hne.
      destruct (decide (j < S s0)%nat) as [Hlt|Hge].
      * rewrite lookup_app_l in Hj by lia.
        destruct (decide (j = s0)) as [->|Hne']; [congruence|eauto].
      * apply lookup_lt_Some in Hj. rewrite length_app in Hj. simpl in Hj. lia.
    + rewrite lookup_app_r by lia. by rewrite Hlen, Nat.sub_diag.
    + by left.
Qed.

Lemma reachable_one_attempt p :
  reachable JSON_parse JSON_stringify p -> one_attempt p.
Proof.
  induction 1 as [|p ev p' _ IH Hstep].
  - exists 0%nat, CONNECTING. repeat split; try done.
    + intros [|j] st'; [done|]. by intros [=].
    + by left.
  - by apply (step_keeps_one_attempt p ev p').
Qed.

End TransportProperties.

(** C7. The [close] handler, whatever the event says (clean or not, any
    code and reason), marks the page disconnected and schedules one
    [connect] after 3000 ms.  On every page the script reaches: a socket
    can fire [close] only while no reconnect is pending, the socket is
    then [CLOSED] and exactly one reconnect is pending afterwards; while a
    reconnect is pending no socket can fire [close], so no second one is
    scheduled, and never more than one is pending.  A socket error makes
    the handler call [close()] on the socket, which is left [CLOSING]: no
    socket is created and nothing is scheduled by the error itself, and
    the socket's [close] event, which is enabled next, takes the path
    above. *)
Theorem reconnect_after_close (JSON_parse : string -> option value)
    (JSON_stringify : value -> string) (p : UI.Page) :
  (forall event q,
     UI.status_class (UI.onclose event q) = "disconnected" /\
     UI.timers (UI.onclose event q) = (UI.timers q ++ [3000%Z])%list) /\
  (UI.reachable JSON_parse JSON_stringify p ->
   (length (UI.timers p) <= 1)%nat /\
   (forall s event failed p',
      UI.step JSON_parse JSON_stringify p (UI.SocketClosed s event failed) p' ->
      UI.timers p = [] /\
      UI.sockets p' !! s = Some UI.CLOSED /\
      UI.status_class p' = "disconnected" /\
      UI.timers p' = [3000%Z]) /\
   (UI.timers p <> [] ->
    forall s event failed p',
      ~ UI.step JSON_parse JSON_stringify p (UI.SocketClosed s event failed) p') /\
   (forall s p',
      UI.step JSON_parse JSON_stringify p (UI.SocketError s) p' ->
      UI.sockets p' !! s = Some UI.CLOSING /\
      UI.ws p' = Some s /\
      UI.timers p' = UI.timers p /\
      length (UI.sockets p') = length (UI.sockets p) /\
      forall event failed, exists p'',
        UI.step JSON_parse JSON_stringify p' (UI.SocketClosed s event failed) p'')).
Proof.
  split.
  { intros event q. destruct (onclose_schedules event q) as (? & ? & _). done. }
  intros Hreach. pose proof (reachable_one_attempt _ _ p Hreach) as Hinv.
  assert (forall s event failed p',
            UI.step JSON_parse JSON_stringify p (UI.SocketClosed s event failed) p' ->
            UI.timers p = [] /\
            UI.sockets p' !! s = Some UI.CLOSED /\
            UI.status_class p' = "disconnected" /\
            UI.timers p' = [3000%Z]) as Hclose.
  { intros s event failed p' Hstep.
    inversion Hstep as [|p0 s0 st ev f Hs Hlive| | | |]; subst.
    destruct (live_socket_is_current p s st Hinv Hs Hlive) as (Hws & Hlen & Ht & _).
    destruct (closing_page p s failed Hws ltac:(lia))
      as (_ & Ht1 & _ & Hs1 & _). cbv zeta in *.
    destruct (onclose_schedules event
                (if failed
                 then UI.onerror (UI.with_sockets (<[s:=UI.CLOSED]> (UI.sockets p)) p)
                 else UI.with_sockets (<[s:=UI.CLOSED]> (UI.sockets p)) p))
      as (Hclass & Htimers & Hsockets & _).
    rewrite Hsockets, Htimers, Ht1, Ht. done. }
  split; [|split; [exact Hclose|split]].
  - destruct Hinv as (s & st & _ & _ & _ & _ & [[_ ->]|[_ ->]]); simpl; lia.
  - intros Hpending s event failed p' Hstep.
    by destruct (Hclose s event failed p' Hstep).
  - intros s p' Hstep.
    inversion Hstep as [| |p0 s0 st Hs Hlive| | |]; subst.
    destruct (live_socket_is_current p s st Hinv Hs Hlive) as (Hws & _).
    destruct (onerror_keeps p) as (-> & -> & _ & -> & Hsockets).
    assert (UI.sockets (UI.onerror p) !! s = Some UI.CLOSING) as Hclosing.
    { rewrite Hsockets, decide_True, Hs by done. by destruct st. }
    repeat split; try done.
    eexists. by apply (UI.step_close _ _ (UI.onerror p) s UI.CLOSING).
Qed.

Lemma reconnect_after_close_witness :
  UI.timers (UI.connect UI.loaded) = [] /\
  UI.sockets (UI.onclose (UI.mkCloseEvent false 1006 "")
                (UI.onerror (UI.with_sockets [UI.CLOSED] (UI.connect UI.loaded)))) !! 0%nat
    = Some UI.CLOSED /\
  UI.status_class (UI.onclose (UI.mkCloseEvent false 1006 "")
                     (UI.onerror (UI.with_sockets [UI.CLOSED] (UI.connect UI.loaded))))
    = "disconnected" /\
  UI.timers (UI.onclose (UI.mkCloseEvent false 1006 "")
               (UI.onerror (UI.with_sockets [UI.CLOSED] (UI.connect UI.loaded))))
    = [3000%Z].
Proof.
  pose proof (reconnect_after_close Fixture.parse Fixture.stringify
                (UI.connect UI.loaded)) as [_ H].
  destruct (H (UI.reachable_init _ _)) as (_ & Hclose & _).
  apply (Hclose 0%nat (UI.mkCloseEvent false 1006 "") true).
  apply (UI.step_close _ _ (UI.connect UI.loaded) 0%nat UI.CONNECTING);
    [reflexivity|discriminate].
Defined.

(** C8. A payload that [JSON.parse] rejects is logged and dropped: the
    page only gains a console entry, nothing is posted to the plugin and
    nothing is sent on the socket; followed through the bridge, the
    dispatcher is not run, the document is untouched and no response is
    posted.  A window message without the [pluginMessage] key, whatever
    else it holds, leaves the page as it was: nothing is sent. *)
Theorem malformed_payload_is_dropped (api : HostApi)
    (JSON_parse : string -> option value) (JSON_stringify : value -> string)
    (data : string) (window_data : value) (p : UI.Page) (h : Host) :
  (JSON_parse data = None ->
   UI.ws_onmessage JSON_parse data p = UI.with_console UI.LogParseFailure p /\
   UI.to_plugin (UI.ws_onmessage JSON_parse data p) = UI.to_plugin p /\
   UI.sent (UI.ws_onmessage JSON_parse data p) = UI.sent p /\
   receive api JSON_parse JSON_stringify data (p, h)
     = (UI.with_console UI.LogParseFailure p, h)) /\
  ((forall o, window_data = VObj o -> has_key "pluginMessage" o = false) ->
   fst (UI.window_onmessage JSON_stringify window_data p) = p /\
   (window_data <> VUndef -> window_data <> VNull ->
    snd (UI.window_onmessage JSON_stringify window_data p) = UI.Normal)).
Proof.
  split.
  - intros Hparse. unfold receive, UI.ws_onmessage. rewrite Hparse. simpl.
    repeat split. by rewrite !drop_all.
  - intros Hkey. unfold UI.window_onmessage.
    destruct window_data as [| |b|q|s|l|o|d]; try done.
    specialize (Hkey o eq_refl). unfold has_key, get_field in *.
    by destruct (lookup_field "pluginMessage" o).
Qed.

Lemma malformed_payload_is_dropped_witness :
  receive Fixture.api Fixture.parse Fixture.stringify "{id:"
    (UI.connect UI.loaded, Fixture.rectangle_selected)
  = (UI.with_console UI.LogParseFailure (UI.connect UI.loaded),
     Fixture.rectangle_selected) /\
  fst (UI.window_onmessage Fixture.stringify (VObj [("id", VStr "1")])
         (UI.connect UI.loaded)) = UI.connect UI.loaded.
Proof.
  pose proof (malformed_payload_is_dropped Fixture.api Fixture.parse Fixture.stringify
                "{id:" (VObj [("id", VStr "1")]) (UI.connect UI.loaded)
                Fixture.rectangle_selected) as [Hparse Hwindow].
  split.
  - exact (proj2 (proj2 (proj2 (Hparse eq_refl)))).
  - refine (proj1 (Hwindow _)). by intros o [= <-].
Defined.

(** ** Worked examples *)

Example upper_case_of_mixed_case : toUpperCase "pNg" = "PNG".
Proof. reflexivity. Qed.

(** The long s, U+017F, is a lower-case letter whose upper case is S. *)
Example upper_case_of_long_s : toUpperCase "ſvg" = "SVG".
Proof. reflexivity. Qed.

(** A letter whose upper case is outside ASCII stays as it is. *)
Example upper_case_outside_ascii : toUpperCase "pñg" = "PñG".
Proof. reflexivity. Qed.

(** An export asked for as "ſvg" is an SVG export. *)
Example long_s_format_is_exported :
  exported (fst (case_export_selection Fixture.api [("format", VStr "ſvg")]
                   Fixture.rectangle_selected))
  = [(0%nat, VObj [("format", VStr "SVG")])].
Proof. reflexivity. Qed.

(** A template literal prints a plain object, joins an array, and throws
    on an object that has a [toString] key of its own and on a symbol. *)
Example template_texts :
  ToString Fixture.api (VObj [("a", VNum 1)]) = inl "[object Object]" /\
  ToString Fixture.api (VArr [VStr "a"; VNull; VArr [VStr "b"; VStr "c"]])
    = inl "a,,b,c" /\
  ToString Fixture.api (VObj [("toString", VNum 1)])
    = inr "Cannot convert object to primitive value" /\
  ToString Fixture.api (VArr [VStr "a"; VObj [("toString", VNum 1)]])
    = inr "Cannot convert object to primitive value" /\
  ToString Fixture.api (VSym "mixed")
    = inr "Cannot convert a Symbol value to a string".
Proof. by repeat split. Qed.

(** A method that a template literal cannot print: the TypeError is
    caught like any other failure and answered. *)
Example unprintable_method_is_answered :
  posted (fst (dispatch Fixture.api
                 [("id", VStr "5"); ("method", VObj [("toString", VNum 1)])]
                 Fixture.empty))
  = [VObj [("id", VStr "5");
           ("error", VObj [("message",
                            VStr "TypeError: Cannot convert object to primitive value")])]].
Proof. reflexivity. Qed.

Example dotted_command_name : dotted "get-selection-details" = "get.selection.details".
Proof. reflexivity. Qed.

(** A host that refuses [createRectangle]: the refusal comes back as the
    error of the one response. *)
Example refused_call_is_answered :
  posted (fst (dispatch Fixture.refusing
                 [("id", VStr "4"); ("method", VStr "create-rectangle")]
                 Fixture.empty))
  = [VObj [("id", VStr "4"); ("error", VObj [("message", VStr "refused")])]].
Proof. reflexivity. Qed.

(** No selection: the end-to-end scenario of the specification. *)
Example fill_without_selection :
  posted (fst (dispatch Fixture.api
                 [("id", VStr "2"); ("method", VStr "set-fill-color");
                  ("value", VObj [("type", VStr "SOLID"); ("color", Fixture.red)])]
                 Fixture.empty))
  = [VObj [("id", VStr "2");
           ("error", VObj [("message", VStr "Please select a node to set fill color.")])]].
Proof. reflexivity. Qed.

(** A solid color set on a node whose first paint is a gradient goes in
    front of the gradient. *)
Example solid_in_front_of_gradient :
  put_solid Fixture.api [VObj [("type", VStr "GRADIENT_LINEAR")]] Fixture.red Fixture.empty
  = (Fixture.empty,
     Returned [solid_paint Fixture.red; VObj [("type", VStr "GRADIENT_LINEAR")]]).
Proof. reflexivity. Qed.

(** A well-formed payload on an open socket goes to the dispatcher and its
    response is sent back on the socket. *)
Example payload_round_trip :
  let page := UI.with_sockets [UI.OPEN] (UI.connect UI.loaded) in
  let sys := receive Fixture.api Fixture.parse Fixture.stringify "{}"
               (page, Fixture.empty) in
  UI.sent (fst sys) = [(0%nat, "<json>")] /\
  posted (snd sys) =
  [VObj [("id", VUndef);
         ("error", VObj [("message", VStr "Unknown command: undefined")])]].
Proof. by split. Qed.

(** A payload that parses to [null] reaches the plugin, whose handler
    throws before its [try]: no response. *)
Example null_payload_gets_no_response :
  let page := UI.with_sockets [UI.OPEN] (UI.connect UI.loaded) in
  let sys := receive Fixture.api Fixture.parse Fixture.stringify "null"
               (page, Fixture.empty) in
  UI.sent (fst sys) = [] /\ posted (snd sys) = [].
Proof. by split. Qed.

(** * Further properties of the code *)

(** ** The switch *)

(** X1. The second [case 'get-selection':] of the switch can never run:
    whatever the method, the switch behaves as the switch without that
    case, so [get-selection] always answers with the full projection of
    the first case. *)
Theorem second_get_selection_case_is_dead (api : HostApi) (method : value)
    (params : object) :
  nth_error (command_table api) 4 = Some ("get-selection", case_get_selection_2) /\
  switch api method (command_table api) params =
  switch api method (delete 4%nat (command_table api)) params.
Proof.
  split; [done|]. unfold command_table. simpl.
  destruct (strict_eq method (VStr "get-selection")); reflexivity.
Qed.

Lemma without_keys_set_field ks k v o :
  In k ks -> without_keys ks (set_field k v o) = without_keys ks o.
Proof.
  intros Hin.
  assert (existsb (String.eqb k) ks = true) as Hk.
  { apply existsb_exists. exists k. split; [done|apply String.eqb_refl]. }
  unfold without_keys. induction o as [|[k' v'] o IH]; simpl.
  - by rewrite Hk.
  - destruct (String.eqb k k') eqn:E; simpl.
    + apply String.eqb_eq in E. subst k'. by rewrite Hk.
    + by rewrite IH.
Qed.

Lemma lookup_without_keys k ks o :
  lookup_field k (without_keys ks o) =
  if existsb (String.eqb k) ks then None else lookup_field k o.
Proof.
  unfold without_keys. induction o as [|[k' v'] o IH]; simpl.
  - by destruct (existsb _ ks).
  - destruct (existsb (String.eqb k') ks) eqn:Ek'; simpl.
    + rewrite IH. destruct (String.eqb k k') eqn:E; [|done].
      apply String.eqb_eq in E. subst k'. by rewrite Ek'.
    + rewrite IH. destruct (String.eqb k k') eqn:E; [|done].
      apply String.eqb_eq in E. subst k'. by rewrite Ek'.
Qed.

(** X2. The [id] of a command is opaque to the dispatcher: a handler never
    sees the keys [id] and [method] among its parameters, every other key
    reaches it as sent, and giving a command another [id] changes nothing
    but the [id] echoed in the response: the same case runs on the same
    parameters and leaves the same document. *)
Theorem id_is_only_echoed (api : HostApi) (msg : object) (v : value) (k : string)
    (h : Host) :
  lookup_field "id" (without_keys ["method"; "id"] msg) = None /\
  lookup_field "method" (without_keys ["method"; "id"] msg) = None /\
  (k <> "id" -> k <> "method" ->
   lookup_field k (without_keys ["method"; "id"] msg) = lookup_field k msg) /\
  dispatch api (set_field "id" v msg) h =
  match switch api (get_field "method" msg) (command_table api)
          (without_keys ["method"; "id"] msg) h with
  | (h', Returned result) =>
      (log_post (VObj [("id", v); ("result", result)]) h', Returned tt)
  | (h', Threw error) =>
      (log_post (VObj [("id", v);
                       ("error", VObj [("message", VStr (error_message api error))])]) h',
       Returned tt)
  end.
Proof.
  split; [by rewrite lookup_without_keys|].
  split; [by rewrite lookup_without_keys|].
  split.
  - intros Hid Hm. rewrite lookup_without_keys. simpl.
    apply String.eqb_neq in Hid, Hm. by rewrite Hid, Hm.
  - unfold dispatch, try_catch, bind.
    rewrite without_keys_set_field by (simpl; tauto).
    rewrite get_set_field_same, get_set_field_other by done.
    by destruct (switch _ _ _ _ h) as [h' [r|e]].
Qed.

Lemma id_is_only_echoed_witness :
  lookup_field "x"
    (without_keys ["method"; "id"]
       [("id", VStr "1"); ("method", VStr "create-rectangle"); ("x", VNum 10)])
  = Some (VNum 10).
Proof.
  refine (proj1 (proj2 (proj2 (id_is_only_echoed Fixture.api
            [("id", VStr "1"); ("method", VStr "create-rectangle"); ("x", VNum 10)]
            VNull "x" Fixture.empty))) _ _); discriminate.
Defined.

Lemma dispatch_posted api msg h :
  exists resp,
    posted (fst (dispatch api msg h)) = (posted h ++ [resp])%list /\
    snd (dispatch api msg h) = Returned tt.
Proof.
  unfold dispatch, try_catch, bind.
  pose proof (keeps_switch api (get_field "method" msg)
                (without_keys ["method"; "id"] msg) (command_table api)
                (fun l b => keeps_case api l b _) h) as Hkeep.
  destruct (switch _ _ _ _ h) as [h' [r|e]]; simpl in *; rewrite Hkeep; by eexists.
Qed.

(** X3. What [figma.ui.onmessage] does with a message that is no command
    object.  On [null] or [undefined] the destructuring throws before the
    [try]: nothing is posted and the document is untouched.  Every other
    value gets exactly one response; a value without properties (a number,
    a string, a boolean, an array) is answered
    "Unknown command: undefined" with an [undefined] id and leaves the
    document as it was. *)
Theorem onmessage_on_any_value (api : HostApi) (msg : value) (h : Host) :
  (msg = VNull \/ msg = VUndef ->
   exists e, onmessage api msg h = (h, Threw e)) /\
  (msg <> VNull -> msg <> VUndef ->
   exists resp,
     posted (fst (onmessage api msg h)) = (posted h ++ [resp])%list /\
     snd (onmessage api msg h) = Returned tt) /\
  (msg <> VNull -> msg <> VUndef -> (forall o, msg <> VObj o) ->
   onmessage api msg h =
   (log_post (VObj [("id", VUndef);
                    ("error", VObj [("message", VStr "Unknown command: undefined")])]) h,
    Returned tt)).
Proof.
  split; [|split].
  - intros [->| ->]; by eexists.
  - intros Hnull Hundef. destruct msg; try done; apply dispatch_posted.
  - intros Hnull Hundef Hobj. destruct msg; try done. by destruct (Hobj fields).
Qed.

Lemma onmessage_on_any_value_witness :
  onmessage Fixture.api (VNum 5) Fixture.empty =
  (log_post (VObj [("id", VUndef);
                   ("error", VObj [("message", VStr "Unknown command: undefined")])])
     Fixture.empty,
   Returned tt).
Proof.
  refine (proj2 (proj2 (onmessage_on_any_value Fixture.api (VNum 5) Fixture.empty))
            _ _ _); discriminate.
Defined.

(** ** Commands on the selection *)

(** X5. The five commands that act on the selection all refuse an empty
    selection with their own "Please select a node to ..." message, before
    looking at any parameter and without touching the document. *)
Theorem empty_selection_is_refused (api : HostApi) (msg : object) (m what : string)
    (h : Host) :
  get_field "method" msg = VStr m ->
  selection h = [] ->
  In (m, what) [ ("export-selection", "export.");
                 ("set-fill-color", "set fill color.");
                 ("set-stroke-color", "set stroke color.");
                 ("set-stroke-weight", "set stroke weight.");
                 ("set-effect", "set effect.") ] ->
  dispatch api msg h =
  (log_post (VObj [("id", get_field "id" msg);
                   ("error", VObj [("message",
                                    VStr ("Please select a node to " ++ what))])]) h,
   Returned tt).
Proof.
  intros Hm Hsel Hin. unfold dispatch, try_catch, bind. rewrite Hm. simpl in Hin.
  repeat (destruct Hin as [[= <- <-]|Hin];
          [simpl; unfold case_export_selection, case_set_fill_color,
             case_set_stroke_color, case_set_stroke_weight, case_set_effect,
             bind, read; by rewrite Hsel|]).
  destruct Hin.
Qed.

Lemma empty_selection_is_refused_witness :
  dispatch Fixture.api
    [("id", VStr "2"); ("method", VStr "set-effect"); ("value", VObj [])] Fixture.empty =
  (log_post (VObj [("id", VStr "2");
                   ("error", VObj [("message",
                                    VStr "Please select a node to set effect.")])])
     Fixture.empty,
   Returned tt).
Proof.
  refine (empty_selection_is_refused Fixture.api
            [("id", VStr "2"); ("method", VStr "set-effect"); ("value", VObj [])]
            "set-effect" "set effect." Fixture.empty eq_refl eq_refl _).
  simpl. tauto.
Defined.

Lemma only_prop_refl r k h : only_prop r k h h.
Proof. by repeat split. Qed.

Lemma only_prop_trans r k h1 h2 h3 :
  only_prop r k h1 h2 -> only_prop r k h2 h3 -> only_prop r k h1 h3.
Proof.
  intros (A1 & A2 & A3 & A4 & A5 & A6 & A7 & A8 & A9 & A10 & A11)
         (B1 & B2 & B3 & B4 & B5 & B6 & B7 & B8 & B9 & B10 & B11).
  unfold only_prop.
  rewrite B2, B3, B4, B5, B7, B8, B9, B10, B11.
  do 5 (split; [first [done | intros r' Hr'; by rewrite B1, A1]|]).
  split; [intros k' Hk'; by rewrite B6, A6|done].
Qed.

Lemma touches_ret {A} r k (a : A) : touches_only r k (ret a).
Proof. intros h. apply only_prop_refl. Qed.

Lemma touches_throw_error {A} r k msg : touches_only r k (@throw_error A msg).
Proof. intros h. apply only_prop_refl. Qed.

Lemma touches_type_error {A} api r k what : touches_only r k (@type_error api A what).
Proof. intros h. apply only_prop_refl. Qed.

Lemma touches_read {A} r k (f : Host -> A) : touches_only r k (read f).
Proof. intros h. apply only_prop_refl. Qed.

Lemma touches_bind {A B} r k (m : M A) (f : A -> M B) :
  touches_only r k m -> (forall a, touches_only r k (f a)) ->
  touches_only r k (bind m f).
Proof.
  intros Hm Hf h. unfold bind. specialize (Hm h).
  destruct (m h) as [h' [a|e]]; simpl in *; [|done].
  by apply (only_prop_trans r k h h'), Hf.
Qed.

Lemma touches_assign_node_prop api r k v :
  touches_only r k (assign_node_prop api r k v).
Proof.
  intros h. unfold assign_node_prop, host_call.
  destruct (host_rejects api _ h); simpl; [apply only_prop_refl|].
  unfold only_prop. simpl. rewrite Nat.eqb_refl. simpl.
  split; [intros r' Hr'; apply Nat.eqb_neq in Hr'; by rewrite Hr'|].
  do 4 (split; [done|]).
  split; [intros k' Hk'; by apply lookup_set_field_other|done].
Qed.

Lemma touches_template api r k v : touches_only r k (template api v).
Proof. intros h. unfold template. destruct (ToString api v); apply only_prop_refl. Qed.

Create HintDb touches.
#[local] Hint Resolve @touches_ret @touches_throw_error @touches_type_error
  @touches_read touches_assign_node_prop touches_template : touches.

Ltac touches_step :=
  match goal with
  | |- touches_only _ _ (bind _ _) => apply touches_bind; [|intros]
  | |- touches_only _ _ (match ?x with _ => _ end) => destruct x
  | |- touches_only _ _ _ => solve [auto with touches]
  end.

Ltac touches := repeat touches_step.

(** X6. The commands that set a paint, a stroke weight or an effect change
    nothing but one property of the first selected node: [fills],
    [strokes], [strokeWeight] or [effects] respectively.  Every other
    node, also a selected one, every other property of that node, the
    selection, the viewport and the styles stay as they were, whether the
    command succeeds or fails. *)
Theorem setters_touch_one_property (api : HostApi) (params : object) (h : Host)
    (r : nat) (rest : list nat) :
  selection h = r :: rest ->
  only_prop r "fills" h (fst (case_set_fill_color api params h)) /\
  only_prop r "strokes" h (fst (case_set_stroke_color api params h)) /\
  only_prop r "strokeWeight" h (fst (case_set_stroke_weight api params h)) /\
  only_prop r "effects" h (fst (case_set_effect api params h)).
Proof.
  intros Hsel.
  assert (forall (f : list nat -> M value) k,
            (forall sel, sel = r :: rest -> touches_only r k (f sel)) ->
            only_prop r k h (fst (bind (read selection) f h))) as Hrun.
  { intros f k Hf. unfold bind, read. simpl. by apply (Hf (selection h) Hsel h). }
  split; [|split; [|split]].
  - apply Hrun. intros sel ->.
    unfold applyFillColorStyle, apply_color_style, getStyleById, setFillColor,
      setFillGradient, node_prop, put_solid, put_gradient, member, call_startsWith.
    touches.
  - apply Hrun. intros sel ->.
    unfold applyStrokeColorStyle, apply_color_style, getStyleById, setStrokeColor,
      setStrokeGradient, node_prop, put_solid, put_gradient, member, call_startsWith.
    touches.
  - apply Hrun. intros sel ->. unfold setStrokeWeight. touches.
  - apply Hrun. intros sel ->. unfold setEffect, node_prop, spread. touches.
Qed.

Lemma setters_touch_one_property_witness :
  only_prop 0 "fills" Fixture.rectangle_selected
    (fst (case_set_fill_color Fixture.api
            [("value", VObj [("type", VStr "SOLID"); ("color", Fixture.red)])]
            Fixture.rectangle_selected)).
Proof.
  exact (proj1 (setters_touch_one_property Fixture.api
                  [("value", VObj [("type", VStr "SOLID"); ("color", Fixture.red)])]
                  Fixture.rectangle_selected 0%nat [] eq_refl)).
Defined.

(** X7. [setEffect] only ever adds: on a node whose [effects] is an array,
    or is missing or falsy, the new effect is appended behind all the
    effects the node had, none is replaced, and two calls leave both
    effects at the end in the order given.  When [effects] holds something
    truthy that cannot be spread, the call throws and assigns nothing. *)
Theorem effects_accumulate (api : HostApi) (node : nat) (e1 e2 : value)
    (h : Host) (old : list value) :
  (forall v h', host_rejects api (SetNodeProp node "effects" v) h' = None) ->
  (get_field "effects" (node_props (nodes h node)) = VArr old \/
   (truthy (get_field "effects" (node_props (nodes h node))) = false /\ old = []) ->
   exists h1 h2,
     setEffect api node e1 h = (h1, Returned tt) /\
     get_field "effects" (node_props (nodes h1 node)) = VArr (old ++ [e1]) /\
     setEffect api node e2 h1 = (h2, Returned tt) /\
     get_field "effects" (node_props (nodes h2 node)) = VArr (old ++ [e1; e2])) /\
  (truthy (get_field "effects" (node_props (nodes h node))) = true ->
   (forall l, get_field "effects" (node_props (nodes h node)) <> VArr l) ->
   (forall s, get_field "effects" (node_props (nodes h node)) <> VStr s) ->
   setEffect api node e1 h =
   (h, Threw (ThrowError (type_error_message api "value is not iterable")))).
Proof.
  intros Hok. split.
  - intros Hold.
    assert (forall e h0 l,
              get_field "effects" (node_props (nodes h0 node)) = VArr l \/
              (truthy (get_field "effects" (node_props (nodes h0 node))) = false /\ l = []) ->
              setEffect api node e h0 =
              (set_node_prop node "effects" (VArr (l ++ [e])) h0, Returned tt)) as Hstep.
    { intros e h0 l Hl. unfold setEffect, node_prop, bind, read.
      destruct Hl as [Hl|[Hl ->]]; rewrite Hl; simpl;
        by rewrite assign_node_prop_accepted by apply Hok. }
    eexists _, _. split; [by apply Hstep|].
    split; [apply paint_list_after_set|].
    split; [apply Hstep; left; apply paint_list_after_set|].
    rewrite paint_list_after_set. by rewrite <- app_assoc.
  - intros Ht Harr Hstr. unfold setEffect, node_prop, bind, read. rewrite Ht.
    destruct (get_field "effects" (node_props (nodes h node))) as [| |b|q|s|l|o|d];
      try done.
    + by destruct (Hstr s).
    + by destruct (Harr l).
Qed.

Lemma effects_accumulate_witness :
  exists h1 h2,
    setEffect Fixture.api 0 (VStr "shadow") Fixture.rectangle_selected
      = (h1, Returned tt) /\
    get_field "effects" (node_props (nodes h1 0)) = VArr [VStr "shadow"] /\
    setEffect Fixture.api 0 (VStr "blur") h1 = (h2, Returned tt) /\
    get_field "effects" (node_props (nodes h2 0)) = VArr [VStr "shadow"; VStr "blur"].
Proof.
  refine (proj1 (effects_accumulate Fixture.api 0 (VStr "shadow") (VStr "blur")
                   Fixture.rectangle_selected [] (fun _ _ => eq_refl)) _).
  right. by split.
Defined.

(** X8. [set-stroke-weight] tests the type of [value], not its truth: any
    number is assigned as the stroke weight of the first selected node, 0
    included, and anything that is not a number (a missing value, a
    numeric string, [null]) is refused with the command's message and
    nothing is assigned. *)
Theorem stroke_weight_takes_any_number (api : HostApi) (params : object) (h : Host)
    (r : nat) (rest : list nat) :
  selection h = r :: rest ->
  (forall q, get_field "value" params = VNum q ->
     host_rejects api (SetNodeProp r "strokeWeight" (VNum q)) h = None ->
     case_set_stroke_weight api params h =
     (set_node_prop r "strokeWeight" (VNum q) h,
      Returned (VObj [("status", VStr "Stroke weight set successfully.")])) /\
     get_field "strokeWeight"
       (node_props (nodes (set_node_prop r "strokeWeight" (VNum q) h) r)) = VNum q) /\
  ((forall q, get_field "value" params <> VNum q) ->
   case_set_stroke_weight api params h =
   (h, Threw (ThrowError
                "'value' is required and must be a number for setting stroke weight."))).
Proof.
  intros Hsel. split.
  - intros q Hq Hok. split; [|apply paint_list_after_set].
    unfold case_set_stroke_weight, setStrokeWeight, bind, read. rewrite Hsel, Hq.
    by rewrite assign_node_prop_accepted.
  - intros Hnot. unfold case_set_stroke_weight, bind, read. rewrite Hsel.
    destruct (get_field "value" params) as [| |b|q|s|l|o|d]; try done.
    by destruct (Hnot q).
Qed.

Lemma stroke_weight_takes_any_number_witness :
  case_set_stroke_weight Fixture.api [("value", VNum 0)] Fixture.rectangle_selected =
  (set_node_prop 0 "strokeWeight" (VNum 0) Fixture.rectangle_selected,
   Returned (VObj [("status", VStr "Stroke weight set successfully.")])).
Proof.
  exact (proj1 (proj1 (stroke_weight_takes_any_number Fixture.api [("value", VNum 0)]
                         Fixture.rectangle_selected 0%nat [] eq_refl)
                  0%Q eq_refl eq_refl)).
Defined.

Lemma case_set_color_unfold api stroke params h r rest :
  selection h = r :: rest ->
  case_set_color api stroke params h =
  bind
    (if truthy (get_field "styleId" params)
     then apply_color_style api (paint_key stroke) r (get_field "styleId" params)
     else if truthy (get_field "value" params) then
       do ty <- member api (get_field "value" params) "type";
       if strict_eq ty (VStr "SOLID") then
         do color <- member api (get_field "value" params) "color";
         set_solid api stroke r color
       else
         do isGradient <- call_startsWith api ty "GRADIENT";
         if isGradient then set_gradient api stroke r (get_field "value" params)
         else do text <- template api ty;
              throw_error ("Unsupported paint type for " ++ paint_key stroke ++ ": "
                             ++ text)
     else throw_error
            ("Either 'value' (color/gradient) or 'styleId' is required for setting "
               ++ paint_word stroke ++ " color."))
    (fun _ => ret (VObj [("status",
                          VStr (if stroke then "Stroke color set successfully."
                                else "Fill color set successfully."))])) h.
Proof.
  intros Hsel.
  destruct stroke; unfold case_set_color, case_set_stroke_color, case_set_fill_color;
    unfold bind at 1; unfold read; rewrite Hsel; reflexivity.
Qed.



Lemma get_without_other k ks o :
  ~ In k ks -> get_field k (without_keys ks o) = get_field k o.
Proof.
  intros Hk. unfold get_field. rewrite lookup_without_keys.
  destruct (existsb (String.eqb k) ks) eqn:E; [|done].
  apply existsb_exists in E as (k' & Hin & Heq).
  apply String.eqb_eq in Heq. by subst.
Qed.

(** X10. When a [styleId] is given, [set-fill-color] and
    [set-stroke-color] never look at [value]: the command does exactly
    what it does without the [value] parameter. *)
Theorem style_id_overrides_value (api : HostApi) (stroke : bool) (params : object)
    (h : Host) :
  truthy (get_field "styleId" params) = true ->
  case_set_color api stroke params h =
  case_set_color api stroke (without_keys ["value"] params) h.
Proof.
  intros Hstyle.
  destruct (selection h) as [|r rest] eqn:Hsel.
  - destruct stroke; unfold case_set_color, case_set_stroke_color,
      case_set_fill_color, bind, read; by rewrite Hsel.
  - rewrite !(case_set_color_unfold api stroke _ h r rest Hsel).
    rewrite get_without_other by (simpl; intros [[=]|[]]).
    by rewrite Hstyle.
Qed.

Lemma style_id_overrides_value_witness :
  case_set_color Fixture.api false
    [("styleId", VStr "S:9"); ("value", VObj [("type", VStr "SOLID")])]
    Fixture.rectangle_selected =
  case_set_color Fixture.api false [("styleId", VStr "S:9")] Fixture.rectangle_selected.
Proof.
  exact (style_id_overrides_value Fixture.api false
           [("styleId", VStr "S:9"); ("value", VObj [("type", VStr "SOLID")])]
           Fixture.rectangle_selected eq_refl).
Defined.

Lemma set_solid_accepted api stroke node color h :
  (forall v h', host_rejects api (SetNodeProp node (paint_key stroke) v) h' = None) ->
  (paint_list (paint_key stroke) node h = [] \/
   exists p rest, paint_list (paint_key stroke) node h = VObj p :: rest) ->
  exists new,
    set_solid api stroke node color h =
      (set_node_prop node (paint_key stroke) (VArr (solid_paint color :: new)) h,
       Returned tt) /\
    (new = paint_list (paint_key stroke) node h \/
     (exists p, hd_error (paint_list (paint_key stroke) node h) = Some (VObj p) /\
                get_field "type" p = VStr "SOLID") /\
     new = tl (paint_list (paint_key stroke) node h)).
Proof.
  intros Hok Hshape. rewrite set_solid_unfold.
  destruct (put_solid_spec api (paint_list (paint_key stroke) node h) color h)
    as [Hnil Hcons].
  destruct Hshape as [Hold|(p & rest & Hold)].
  - rewrite (Hnil Hold), Hold. exists []. rewrite assign_node_prop_accepted by apply Hok.
    split; [done|by left].
  - rewrite (Hcons p rest Hold), Hold.
    destruct (strict_eq (get_field "type" p) (VStr "SOLID")) eqn:E.
    + exists rest. rewrite assign_node_prop_accepted by apply Hok.
      split; [done|]. right. split; [|done]. exists p. split; [done|].
      destruct (get_field "type" p); try done. simpl in E.
      apply String.eqb_eq in E. by subst.
    + exists (VObj p :: rest). rewrite assign_node_prop_accepted by apply Hok.
      split; [done|by left].
Qed.

Lemma set_gradient_accepted api stroke node g h :
  (forall v h', host_rejects api (SetNodeProp node (paint_key stroke) v) h' = None) ->
  (paint_list (paint_key stroke) node h = [] \/
   exists p rest t, paint_list (paint_key stroke) node h = VObj p :: rest /\
                    get_field "type" p = VStr t) ->
  exists new,
    set_gradient api stroke node g h =
      (set_node_prop node (paint_key stroke) (VArr (g :: new)) h, Returned tt) /\
    (new = paint_list (paint_key stroke) node h \/
     (exists p t, hd_error (paint_list (paint_key stroke) node h) = Some (VObj p) /\
                  get_field "type" p = VStr t /\ startsWith "GRADIENT" t = true) /\
     new = tl (paint_list (paint_key stroke) node h)).
Proof.
  intros Hok Hshape. rewrite set_gradient_unfold.
  destruct (put_gradient_spec api (paint_list (paint_key stroke) node h) g h)
    as [Hnil Hcons].
  destruct Hshape as [Hold|(p & rest & t & Hold & Ht)].
  - rewrite (Hnil Hold), Hold. exists []. rewrite assign_node_prop_accepted by apply Hok.
    split; [done|by left].
  - rewrite (Hcons p rest t Hold Ht), Hold.
    destruct (startsWith "GRADIENT" t) eqn:E.
    + exists rest. rewrite assign_node_prop_accepted by apply Hok.
      split; [done|]. right. split; [|done]. by exists p, t.
    + exists (VObj p :: rest). rewrite assign_node_prop_accepted by apply Hok.
      split; [done|by left].
Qed.

Lemma paint_list_set_node_prop k node l h :
  paint_list k node (set_node_prop node k (VArr l) h) = l.
Proof. unfold paint_list. by rewrite paint_list_after_set. Qed.

(** X11. Paints of one kind do not pile up, paints of different kinds do.
    On a node whose paint assignments the host accepts and whose first
    paint, if any, is a paint object with a type: setting a solid color
    twice leaves the second color alone in the place of the first, the
    list as long as it was after the first call, and likewise for two
    gradients; but a gradient set after a solid color, or a solid color
    after a gradient, goes in front and the list grows by one. *)
Theorem same_kind_replaces_other_kind_stacks (api : HostApi) (stroke : bool)
    (node : nat) (c1 c2 : value) (g1 g2 : object) (t1 t2 : string) (h : Host) :
  (forall v h', host_rejects api (SetNodeProp node (paint_key stroke) v) h' = None) ->
  (paint_list (paint_key stroke) node h = [] \/
   exists p rest t, paint_list (paint_key stroke) node h = VObj p :: rest /\
                    get_field "type" p = VStr t) ->
  get_field "type" g1 = VStr t1 -> startsWith "GRADIENT" t1 = true ->
  get_field "type" g2 = VStr t2 -> startsWith "GRADIENT" t2 = true ->
  (exists h1 h2 rest,
     set_solid api stroke node c1 h = (h1, Returned tt) /\
     paint_list (paint_key stroke) node h1 = solid_paint c1 :: rest /\
     set_solid api stroke node c2 h1 = (h2, Returned tt) /\
     paint_list (paint_key stroke) node h2 = solid_paint c2 :: rest) /\
  (exists h1 h2 rest,
     set_gradient api stroke node (VObj g1) h = (h1, Returned tt) /\
     paint_list (paint_key stroke) node h1 = VObj g1 :: rest /\
     set_gradient api stroke node (VObj g2) h1 = (h2, Returned tt) /\
     paint_list (paint_key stroke) node h2 = VObj g2 :: rest) /\
  (exists h1 h2 rest,
     set_solid api stroke node c1 h = (h1, Returned tt) /\
     paint_list (paint_key stroke) node h1 = solid_paint c1 :: rest /\
     set_gradient api stroke node (VObj g1) h1 = (h2, Returned tt) /\
     paint_list (paint_key stroke) node h2 = VObj g1 :: solid_paint c1 :: rest) /\
  (exists h1 h2 rest,
     set_gradient api stroke node (VObj g1) h = (h1, Returned tt) /\
     paint_list (paint_key stroke) node h1 = VObj g1 :: rest /\
     set_solid api stroke node c1 h1 = (h2, Returned tt) /\
     paint_list (paint_key stroke) node h2 = solid_paint c1 :: VObj g1 :: rest).
Proof.
  intros Hok Hshape Ht1 Hg1 Ht2 Hg2.
  assert (paint_list (paint_key stroke) node h = [] \/
          exists p rest, paint_list (paint_key stroke) node h = VObj p :: rest) as Hshape'.
  { destruct Hshape as [?|(p & rest & t & ? & _)]; [by left|right; by exists p, rest]. }
  destruct (set_solid_accepted api stroke node c1 h Hok Hshape') as (ns & Hs & _).
  destruct (set_gradient_accepted api stroke node (VObj g1) h Hok Hshape)
    as (ng & Hg & _).
  assert (Hne : "GRADIENT" <> "") by done.
  assert (forall t, startsWith "GRADIENT" t = true -> t <> "SOLID") as Hnot_solid.
  { intros t Ht ->. done. }
  repeat split.
  - eexists _, _, ns. split; [exact Hs|]. rewrite paint_list_set_node_prop.
    split; [done|].
    rewrite set_solid_unfold, paint_list_set_node_prop.
    destruct (put_solid_spec api (solid_paint c1 :: ns) c2
                (set_node_prop node (paint_key stroke) (VArr (solid_paint c1 :: ns)) h))
      as [_ Hcons].
    rewrite (Hcons _ ns eq_refl). simpl.
    rewrite assign_node_prop_accepted by apply Hok.
    split; [done|]. by rewrite paint_list_set_node_prop.
  - eexists _, _, ng. split; [exact Hg|]. rewrite paint_list_set_node_prop.
    split; [done|].
    rewrite set_gradient_unfold, paint_list_set_node_prop.
    destruct (put_gradient_spec api (VObj g1 :: ng) (VObj g2)
                (set_node_prop node (paint_key stroke) (VArr (VObj g1 :: ng)) h))
      as [_ Hcons].
    rewrite (Hcons g1 ng t1 eq_refl Ht1), Hg1.
    rewrite assign_node_prop_accepted by apply Hok.
    split; [done|]. by rewrite paint_list_set_node_prop.
  - eexists _, _, ns. split; [exact Hs|]. rewrite paint_list_set_node_prop.
    split; [done|].
    rewrite set_gradient_unfold, paint_list_set_node_prop.
    destruct (put_gradient_spec api (solid_paint c1 :: ns) (VObj g1)
                (set_node_prop node (paint_key stroke) (VArr (solid_paint c1 :: ns)) h))
      as [_ Hcons].
    rewrite (Hcons _ ns "SOLID" eq_refl eq_refl). simpl.
    rewrite assign_node_prop_accepted by apply Hok.
    split; [done|]. by rewrite paint_list_set_node_prop.
  - eexists _, _, ng. split; [exact Hg|]. rewrite paint_list_set_node_prop.
    split; [done|].
    rewrite set_solid_unfold, paint_list_set_node_prop.
    destruct (put_solid_spec api (VObj g1 :: ng) c1
                (set_node_prop node (paint_key stroke) (VArr (VObj g1 :: ng)) h))
      as [_ Hcons].
    rewrite (Hcons g1 ng eq_refl), Ht1. simpl.
    assert (String.eqb t1 "SOLID" = false) as ->
        by (apply String.eqb_neq; by apply Hnot_solid).
    rewrite assign_node_prop_accepted by apply Hok.
    split; [done|]. by rewrite paint_list_set_node_prop.
Qed.

Lemma same_kind_replaces_other_kind_stacks_witness :
  exists h1 h2 rest,
    set_solid Fixture.api false 0 Fixture.red Fixture.rectangle_selected
      = (h1, Returned tt) /\
    paint_list "fills" 0 h1 = solid_paint Fixture.red :: rest /\
    set_gradient Fixture.api false 0 (VObj [("type", VStr "GRADIENT_RADIAL")]) h1
      = (h2, Returned tt) /\
    paint_list "fills" 0 h2 =
      VObj [("type", VStr "GRADIENT_RADIAL")] :: solid_paint Fixture.red :: rest.
Proof.
  refine (proj1 (proj2 (proj2 (same_kind_replaces_other_kind_stacks Fixture.api false 0
            Fixture.red Fixture.grey
            [("type", VStr "GRADIENT_RADIAL")] [("type", VStr "GRADIENT_LINEAR")]
            "GRADIENT_RADIAL" "GRADIENT_LINEAR" Fixture.rectangle_selected
            (fun _ _ => eq_refl) _ eq_refl eq_refl eq_refl eq_refl)))).
  right. exists [("type", VStr "SOLID"); ("color", Fixture.grey)], [], "SOLID".
  by split.
Defined.

(** ** The catalog and the handlers *)

(** X12. What the catalog marks as required the handlers enforce: for a
    command whose catalog entry lists a parameter as required, a call
    whose parameters lack it always fails, and leaves the document as it
    was. *)
Theorem required_parameters_are_enforced (api : HostApi) (m k : string)
    (entry : value) (params : object) (h : Host) :
  In m (labels api) ->
  catalog_entry_for m = Some entry ->
  In (VStr k) (required_of entry) ->
  lookup_field k params = None ->
  exists e, switch api (VStr m) (command_table api) params h = (h, Threw e).
Proof.
  intros Hin Hentry Hreq Hmiss.
  assert (get_field k params = VUndef) as Hk by (unfold get_field; by rewrite Hmiss).
  unfold labels, command_table in Hin. simpl in Hin.
  repeat (destruct Hin as [<-|Hin];
          [vm_compute in Hentry; try discriminate;
           injection Hentry as <-; simpl in Hreq|]);
    try destruct Hin;
    repeat (destruct Hreq as [[= <-]|Hreq]); try destruct Hreq; simpl.
  - unfold case_create_color_style. rewrite Hk. simpl. by eexists.
  - unfold case_create_color_style. rewrite Hk. simpl.
    rewrite orb_true_r. by eexists.
  - unfold case_export_selection, bind, read.
    destruct (selection h); [by eexists|]. rewrite Hk. simpl. by eexists.
  - unfold case_set_stroke_weight, bind, read.
    destruct (selection h); [by eexists|]. rewrite Hk. by eexists.
  - unfold case_set_effect, bind, read.
    destruct (selection h); [by eexists|]. rewrite Hk. simpl. by eexists.
Qed.

Lemma required_parameters_are_enforced_witness :
  exists e,
    switch Fixture.api (VStr "export-selection") (command_table Fixture.api)
      [("scale", VNum 2)] Fixture.rectangle_selected
    = (Fixture.rectangle_selected, Threw e).
Proof.
  refine (required_parameters_are_enforced Fixture.api "export-selection" "format"
            _ [("scale", VNum 2)] Fixture.rectangle_selected _ eq_refl _ eq_refl).
  - unfold labels. simpl. tauto.
  - simpl. tauto.
Defined.

(** X13. The catalog advertises commands only: every entry bears the
    dotted name of a command of the dispatch table, no two entries bear
    the same name, and [list-functions] itself is not listed. *)
Theorem catalog_lists_only_commands (api : HostApi) (e : value) :
  List.NoDup (map entry_name catalog) /\
  (In e catalog ->
   entry_name e <> VStr (dotted "list-functions") /\
   exists m, In m (labels api) /\ entry_name e = VStr (dotted m)).
Proof.
  split.
  - simpl. repeat (constructor; [simpl; intros H;
                                 repeat (destruct H as [H|H]; [discriminate H|]);
                                 destruct H|]).
    constructor.
  - intros Hin. simpl in Hin.
    repeat (destruct Hin as [<-|Hin];
            [split; [discriminate|];
             match goal with
             | |- exists m, _ /\ entry_name (function_entry ?name _ _ _) = _ =>
                 idtac
             end|]); try destruct Hin.
    + exists "get-selection". unfold labels. simpl. tauto.
    + exists "get-selection-details". unfold labels. simpl. tauto.
    + exists "create-rectangle". unfold labels. simpl. tauto.
    + exists "create-text". unfold labels. simpl. tauto.
    + exists "get-color-styles". unfold labels. simpl. tauto.
    + exists "create-color-style". unfold labels. simpl. tauto.
    + exists "export-selection". unfold labels. simpl. tauto.
    + exists "set-fill-color". unfold labels. simpl. tauto.
    + exists "set-stroke-color". unfold labels. simpl. tauto.
    + exists "set-stroke-weight". unfold labels. simpl. tauto.
    + exists "set-effect". unfold labels. simpl. tauto.
    + exists "figma-ping". unfold labels. simpl. tauto.
Qed.

Lemma catalog_lists_only_commands_witness :
  exists m, In m (labels Fixture.api) /\
            entry_name (function_entry "figma.ping"
                          "Ping the Figma plugin to check its status"
                          [ ("message", described "string" "Message to send with the ping");
                            ("timestamp", described "string" "Timestamp of the ping") ] [])
            = VStr (dotted m).
Proof.
  refine (proj2 (proj2 (catalog_lists_only_commands Fixture.api _) _)).
  simpl. do 11 right. by left.
Defined.

(** ** Creating nodes, continued *)

(** X14. What [create-rectangle] and [create-text] leave behind when the
    host accepts the calls: one node more, which the host created and
    which is now the whole selection, every older node as it was, and the
    new node's id as the result.  A coordinate that is a number other than
    0 is the node's coordinate; the text of a [create-text] is the [text]
    parameter when that is a non-empty string, and "Hello World" when it
    is missing or empty. *)
Theorem created_node_is_placed_and_selected (api : HostApi) (params : object)
    (h : Host) :
  (forall c h', host_rejects api c h' = None) ->
  (let h' := fst (case_create_rectangle api params h) in
   snd (case_create_rectangle api params h)
     = Returned (VObj [("id", VStr (node_id (new_rectangle api h)))]) /\
   node_count h' = S (node_count h) /\
   selection h' = [node_count h] /\
   node_id (nodes h' (node_count h)) = node_id (new_rectangle api h) /\
   node_type (nodes h' (node_count h)) = node_type (new_rectangle api h) /\
   (forall r, r <> node_count h -> nodes h' r = nodes h r) /\
   (forall q, get_field "x" params = VNum q -> Qnum q <> 0%Z ->
      get_field "x" (node_props (nodes h' (node_count h))) = VNum q) /\
   (forall q, get_field "y" params = VNum q -> Qnum q <> 0%Z ->
      get_field "y" (node_props (nodes h' (node_count h))) = VNum q)) /\
  (let h' := fst (case_create_text api params h) in
   snd (case_create_text api params h)
     = Returned (VObj [("id", VStr (node_id (new_text api h)))]) /\
   node_count h' = S (node_count h) /\
   selection h' = [node_count h] /\
   (forall r, r <> node_count h -> nodes h' r = nodes h r) /\
   (forall q, get_field "x" params = VNum q -> Qnum q <> 0%Z ->
      get_field "x" (node_props (nodes h' (node_count h))) = VNum q) /\
   (forall q, get_field "y" params = VNum q -> Qnum q <> 0%Z ->
      get_field "y" (node_props (nodes h' (node_count h))) = VNum q) /\
   (forall s, get_field "text" params = VStr s -> s <> "" ->
      get_field "characters" (node_props (nodes h' (node_count h))) = VStr s) /\
   (get_field "text" params = VStr "" \/ lookup_field "text" params = None ->
      get_field "characters" (node_props (nodes h' (node_count h)))
        = VStr "Hello World")).
Proof.
  intros Hok.
  assert (forall q, Qnum q <> 0%Z -> truthy (VNum q) = true) as Hnum.
  { intros q Hq. simpl. by destruct (Z.eqb_spec (Qnum q) 0). }
  assert (forall s, s <> "" -> truthy (VStr s) = true) as Hstr.
  { intros s Hs. simpl. by destruct s. }
  split; cbv zeta;
    unfold case_create_rectangle, case_create_text, createRectangle, createText,
      assign_node_prop, scrollAndZoomIntoView, assign_selection,
      viewport_center_x, viewport_center_y, node_id_of, bind, read;
    repeat (rewrite host_call_accepted by apply Hok; simpl);
    repeat (rewrite Nat.eqb_refl; simpl).
  - do 5 (split; [done|]). split; [|split].
    + intros r Hr. apply Nat.eqb_neq in Hr. by rewrite Hr.
    + intros q Hq Hnz. rewrite Hq. unfold js_or at 2. rewrite (Hnum q Hnz).
      rewrite get_set_field_other by done. apply get_set_field_same.
    + intros q Hq Hnz. rewrite Hq. unfold js_or at 1. rewrite (Hnum q Hnz).
      apply get_set_field_same.
  - do 3 (split; [done|]). split; [|split; [|split; [|split]]].
    + intros r Hr. apply Nat.eqb_neq in Hr. by rewrite Hr.
    + intros q Hq Hnz. rewrite Hq. unfold js_or at 3. rewrite (Hnum q Hnz).
      rewrite !get_set_field_other by done. apply get_set_field_same.
    + intros q Hq Hnz. rewrite Hq. unfold js_or at 2. rewrite (Hnum q Hnz).
      rewrite get_set_field_other by done. apply get_set_field_same.
    + intros s Hs Hne. rewrite Hs. unfold js_or at 1. rewrite (Hstr s Hne).
      apply get_set_field_same.
    + intros Htext. rewrite get_set_field_same.
      destruct Htext as [->|Hnone]; [done|].
      unfold get_field. by rewrite Hnone.
Qed.

Lemma created_node_is_placed_and_selected_witness :
  let h' := fst (case_create_rectangle Fixture.api [("x", VNum 10); ("y", VNum 20)]
                   Fixture.empty) in
  selection h' = [0%nat] /\
  get_field "x" (node_props (nodes h' 0)) = VNum 10 /\
  get_field "y" (node_props (nodes h' 0)) = VNum 20.
Proof.
  pose proof (created_node_is_placed_and_selected Fixture.api
                [("x", VNum 10); ("y", VNum 20)] Fixture.empty (fun _ _ => eq_refl))
    as [(_ & _ & Hsel & _ & _ & _ & Hx & Hy) _].
  split; [exact Hsel|]. split.
  - apply (Hx 10%Q eq_refl). discriminate.
  - apply (Hy 20%Q eq_refl). discriminate.
Defined.

(** X15. Nothing is rolled back.  Once the host has created the node,
    [create-rectangle] and [create-text] leave it in the document however
    the rest of the command goes: if the host then refuses the assignment
    of [x], the command fails with what the host threw, the selection is
    the old one, and the new node is there all the same.  If the host
    refuses the creation itself, the document is untouched. *)
Theorem created_node_survives_failure (api : HostApi) (params : object) (h : Host) :
  (host_rejects api CreateRectangle h = None ->
   node_count (fst (case_create_rectangle api params h)) = S (node_count h) /\
   node_id (nodes (fst (case_create_rectangle api params h)) (node_count h))
     = node_id (new_rectangle api h) /\
   (forall e,
      host_rejects api
        (SetNodeProp (node_count h) "x"
           (js_or (get_field "x" params) (VNum (center_x (viewport h)))))
        (alloc_node (new_rectangle api h) h) = Some e ->
      case_create_rectangle api params h
        = (alloc_node (new_rectangle api h) h, Threw e))) /\
  (host_rejects api CreateText h = None ->
   node_count (fst (case_create_text api params h)) = S (node_count h) /\
   node_id (nodes (fst (case_create_text api params h)) (node_count h))
     = node_id (new_text api h) /\
   (forall e,
      host_rejects api
        (SetNodeProp (node_count h) "x"
           (js_or (get_field "x" params) (VNum (center_x (viewport h)))))
        (alloc_node (new_text api h) h) = Some e ->
      case_create_text api params h = (alloc_node (new_text api h) h, Threw e))) /\
  (forall e, host_rejects api CreateRectangle h = Some e ->
             case_create_rectangle api params h = (h, Threw e)) /\
  (forall e, host_rejects api CreateText h = Some e ->
             case_create_text api params h = (h, Threw e)).
Proof.
  split; [|split; [|split]].
  - intros Hcreate.
    unfold case_create_rectangle, createRectangle, assign_node_prop,
      scrollAndZoomIntoView, assign_selection, viewport_center_x, viewport_center_y,
      node_id_of, bind, read.
    rewrite (host_call_accepted api CreateRectangle _ h Hcreate). simpl.
    split; [|split].
    + unfold host_call.
      repeat (match goal with
              | |- context [host_rejects api ?c ?h0] =>
                  destruct (host_rejects api c h0); simpl
              end); reflexivity.
    + unfold host_call.
      repeat (match goal with
              | |- context [host_rejects api ?c ?h0] =>
                  destruct (host_rejects api c h0); simpl
              end); rewrite ?Nat.eqb_refl; simpl; rewrite ?Nat.eqb_refl; reflexivity.
    + intros e He. unfold host_call at 1. by rewrite He.
  - intros Hcreate.
    unfold case_create_text, createText, assign_node_prop,
      scrollAndZoomIntoView, assign_selection, viewport_center_x, viewport_center_y,
      node_id_of, bind, read.
    rewrite (host_call_accepted api CreateText _ h Hcreate). simpl.
    split; [|split].
    + unfold host_call.
      repeat (match goal with
              | |- context [host_rejects api ?c ?h0] =>
                  destruct (host_rejects api c h0); simpl
              end); reflexivity.
    + unfold host_call.
      repeat (match goal with
              | |- context [host_rejects api ?c ?h0] =>
                  destruct (host_rejects api c h0); simpl
              end); rewrite ?Nat.eqb_refl; simpl; rewrite ?Nat.eqb_refl; simpl;
        rewrite ?Nat.eqb_refl; reflexivity.
    + intros e He. unfold host_call at 1. by rewrite He.
  - intros e He. unfold case_create_rectangle, createRectangle, bind, read, host_call.
    by rewrite He.
  - intros e He. unfold case_create_text, createText, bind, read, host_call.
    by rewrite He.
Qed.

Lemma created_node_survives_failure_witness :
  case_create_rectangle frozen_nodes [] Fixture.empty =
  (alloc_node Fixture.rectangle Fixture.empty, Threw (ThrowError "node is locked")) /\
  node_count (fst (case_create_rectangle frozen_nodes [] Fixture.empty)) = 1%nat.
Proof.
  pose proof (created_node_survives_failure frozen_nodes [] Fixture.empty)
    as [Hrect _].
  destruct (Hrect eq_refl) as (Hcount & _ & Hfail).
  split; [exact (Hfail _ eq_refl)|exact Hcount].
Defined.

(** ** Color styles, continued *)

Lemma strict_eq_string v n : strict_eq v (VStr n) = true -> v = VStr n.
Proof.
  destruct v; try done. simpl. intros H. apply String.eqb_eq in H. by subst.
Qed.

(** The style a successful [create-color-style] leaves: where it is, its
    id, and what it holds. *)
Lemma create_color_style_result api params n h :
  (forall c h', host_rejects api c h' = None) ->
  get_field "name" params = VStr n -> n <> "" ->
  truthy (get_field "color" params) = true ->
  exists h' i s,
    case_create_color_style api params h
      = (h', Returned (VObj [("styleId", VStr (style_id s))])) /\
    paint_styles h' !! i = Some s /\
    style_name s = VStr n /\
    style_paints s = [solid_paint (get_field "color" params)] /\
    nodes h' = nodes h /\ selection h' = selection h /\ posted h' = posted h.
Proof.
  intros Hok Hn Hne Hc.
  destruct (find_indexed (fun st => strict_eq (style_name st) (VStr n)) (paint_styles h))
    as [[i s]|] eqn:Hfind.
  - rewrite (create_color_style_existing api Hok params n _ Hn Hne eq_refl Hc h i s Hfind).
    apply find_from_some in Hfind as (j & -> & Hj & Hp). simpl in *.
    eexists _, j, (set_style_paints _ s). split; [reflexivity|]. simpl.
    split; [by rewrite list_lookup_alter_eq, Hj|].
    split; [by apply strict_eq_string|done].
  - rewrite (create_color_style_new api Hok params n _ Hn Hne eq_refl Hc h Hfind).
    eexists _, (length (paint_styles h)),
      (set_style_paints [solid_paint (get_field "color" params)]
         (set_style_name (VStr n) (new_paint_style api h))).
    split; [reflexivity|]. simpl.
    split; [rewrite lookup_app_r by lia; by rewrite Nat.sub_diag|done].
Qed.

(** X16. A style made or updated by [create-color-style] is what
    [get-color-styles] then lists: the listing of the document left by a
    successful [create-color-style] holds an entry with the id the command
    returned, the name given, and the solid paint of the color given as
    its only paint. *)
Theorem created_style_is_listed (api : HostApi) (params : object) (n : string)
    (h : Host) :
  (forall c h', host_rejects api c h' = None) ->
  get_field "name" params = VStr n -> n <> "" ->
  truthy (get_field "color" params) = true ->
  exists h' id description listing,
    case_create_color_style api params h
      = (h', Returned (VObj [("styleId", VStr id)])) /\
    case_get_color_styles [] h' = (h', Returned (VArr listing)) /\
    In (VObj [ ("id", VStr id); ("name", VStr n); ("description", description);
               ("paints", VArr [solid_paint (get_field "color" params)]) ]) listing.
Proof.
  intros Hok Hn Hne Hc.
  destruct (create_color_style_result api params n h Hok Hn Hne Hc)
    as (h' & i & s & Hrun & Hi & Hname & Hpaints & _).
  exists h', (style_id s), (style_description s), (map extractPaintStyleInfo (paint_styles h')).
  split; [done|]. split; [done|].
  apply in_map_iff. exists s. split.
  - unfold extractPaintStyleInfo. by rewrite Hname, Hpaints.
  - apply list_elem_of_In, list_elem_of_lookup. by exists i.
Qed.

Lemma created_style_is_listed_witness :
  exists h' id description listing,
    case_create_color_style Fixture.api
      [("name", VStr "Brand"); ("color", Fixture.red)] Fixture.two_brands
      = (h', Returned (VObj [("styleId", VStr id)])) /\
    case_get_color_styles [] h' = (h', Returned (VArr listing)) /\
    In (VObj [ ("id", VStr id); ("name", VStr "Brand"); ("description", description);
               ("paints", VArr [solid_paint Fixture.red]) ]) listing.
Proof.
  refine (created_style_is_listed Fixture.api
            [("name", VStr "Brand"); ("color", Fixture.red)] "Brand" Fixture.two_brands
            (fun _ _ => eq_refl) eq_refl _ eq_refl).
  discriminate.
Defined.

Lemma find_from_first {A} (p : A -> bool) k l i x :
  l !! i = Some x -> p x = true ->
  (forall j y, (j < i)%nat -> l !! j = Some y -> p y = false) ->
  find_from p k l = Some ((k + i)%nat, x).
Proof.
  revert k i. induction l as [|y l IH]; intros k i Hi Hp Hbefore; [done|].
  destruct i as [|i]; simpl in *.
  - injection Hi as ->. rewrite Hp. by rewrite Nat.add_0_r.
  - rewrite (Hbefore 0%nat y) by (done || lia).
    rewrite (IH (S k) i Hi Hp).
    + f_equal. f_equal. lia.
    + intros j z Hj Hz. apply (Hbefore (S j) z); [lia|done].
Qed.

(** X17. A style made by [create-color-style] can be applied by the id the
    command returned.  When no other local paint style has that id and a
    node is selected, [set-fill-color] (or [set-stroke-color]) with that
    [styleId] makes the solid paint of the style's color the whole paint
    list of the first selected node. *)
Theorem created_style_can_be_applied (api : HostApi) (stroke : bool)
    (params : object) (n : string) (h : Host) (r : nat) (rest : list nat) :
  (forall c h', host_rejects api c h' = None) ->
  get_field "name" params = VStr n -> n <> "" ->
  truthy (get_field "color" params) = true ->
  selection h = r :: rest ->
  exists h' id,
    case_create_color_style api params h
      = (h', Returned (VObj [("styleId", VStr id)])) /\
    ((forall i j s s', paint_styles h' !! i = Some s -> paint_styles h' !! j = Some s' ->
                       style_id s = style_id s' -> i = j) ->
     id <> "" ->
     exists h'',
       case_set_color api stroke [("styleId", VStr id)] h'
         = (h'', Returned (VObj [("status",
                                  VStr (if stroke then "Stroke color set successfully."
                                        else "Fill color set successfully."))])) /\
       paint_list (paint_key stroke) r h''
         = [solid_paint (get_field "color" params)]).
Proof.
  intros Hok Hn Hne Hc Hsel.
  destruct (create_color_style_result api params n h Hok Hn Hne Hc)
    as (h' & i & s & Hrun & Hi & Hname & Hpaints & _ & Hsel' & _).
  exists h', (style_id s). split; [done|].
  intros Hunique Hid.
  assert (find_indexed (fun st => strict_eq (VStr (style_id st)) (VStr (style_id s)))
            (paint_styles h') = Some (i, s)) as Hfind.
  { apply (find_from_first _ 0 (paint_styles h') i s Hi).
    - simpl. apply String.eqb_refl.
    - intros j y Hj Hy. simpl. apply String.eqb_neq. intros Heq.
      specialize (Hunique j i y s Hy Hi Heq). lia. }
  rewrite Hsel in Hsel'.
  rewrite (case_set_color_unfold api stroke _ h' r rest Hsel').
  change (get_field "styleId" [("styleId", VStr (style_id s))])
    with (VStr (style_id s)).
  assert (truthy (VStr (style_id s)) = true) as ->.
  { simpl. by destruct (style_id s). }
  unfold apply_color_style, getStyleById, bind, read. cbn beta.
  rewrite Hfind. cbn beta iota. rewrite Hpaints. cbn [length Nat.eqb].
  rewrite assign_node_prop_accepted by apply Hok. cbn beta iota.
  eexists. split; [reflexivity|]. apply paint_list_set_node_prop.
Qed.

Lemma created_style_can_be_applied_witness :
  exists h' id h'',
    case_create_color_style Fixture.api
      [("name", VStr "Brand"); ("color", Fixture.red)] Fixture.rectangle_selected
      = (h', Returned (VObj [("styleId", VStr id)])) /\
    case_set_color Fixture.api false [("styleId", VStr id)] h'
      = (h'', Returned (VObj [("status", VStr "Fill color set successfully.")])) /\
    paint_list "fills" 0 h'' = [solid_paint Fixture.red].
Proof.
  destruct (created_style_can_be_applied Fixture.api false
              [("name", VStr "Brand"); ("color", Fixture.red)] "Brand"
              Fixture.rectangle_selected 0%nat [] (fun _ _ => eq_refl) eq_refl
              ltac:(discriminate) eq_refl eq_refl)
    as (h' & id & Hrun & Happly).
  exists h', id.
  assert (paint_styles h' = [mkPaintStyle "S:new" (VStr "Brand") (VStr "")
                               [solid_paint Fixture.red]] /\ id = "S:new")
    as [Hstyles ->].
  { cbv in Hrun. injection Hrun as <- <-. by split. }
  destruct Happly as (h'' & Hset & Hpaints).
  - intros i j s s' Hi Hj _. rewrite Hstyles in Hi, Hj.
    destruct i as [|i], j as [|j]; simpl in *; done.
  - discriminate.
  - by exists h''.
Defined.

(** ** The projector, continued *)

(** X18. The detailed projection goes one level deep and no further: each
    entry of [children] is the plain projection of a child, with the
    child's own id, type and name, and never has [children],
    [constraints] or [layout] of its own, whatever the child is. *)
Theorem children_are_projected_flat (heap : nat -> Node) (node : Node)
    (children : list nat) (entry : value) :
  node_children node = Some children ->
  get_field "children" (node_details heap node)
    = VArr (map (fun child => VObj (getNodeProperties (heap child))) children) /\
  (In entry (map (fun child => VObj (getNodeProperties (heap child))) children) ->
   exists child o,
     In child children /\ entry = VObj o /\
     lookup_field "id" o = Some (VStr (node_id (heap child))) /\
     lookup_field "type" o = Some (VStr (node_type (heap child))) /\
     lookup_field "name" o = Some (VStr (node_name (heap child))) /\
     has_key "children" o = false /\
     has_key "constraints" o = false /\
     has_key "layout" o = false).
Proof.
  intros Hchildren. split.
  - unfold node_details. rewrite Hchildren.
    destruct (has_key "constraints" (node_props node)),
      (has_key "layoutMode" (node_props node));
      rewrite ?get_set_field_other by done; apply get_set_field_same.
  - intros Hin. apply in_map_iff in Hin as (child & <- & Hin).
    exists child, (getNodeProperties (heap child)).
    destruct (identity_of_getNodeProperties (heap child)) as (Hid & Hty & Hname & _).
    do 5 (split; [done|]).
    rewrite !has_key_getNodeProperties. done.
Qed.

Lemma children_are_projected_flat_witness :
  get_field "children"
    (node_details (fun _ => Fixture.rectangle)
       (mkNode "1:1" "FRAME" "Frame" [] (Some [7%nat])))
  = VArr [VObj (getNodeProperties Fixture.rectangle)].
Proof.
  exact (proj1 (children_are_projected_flat (fun _ => Fixture.rectangle)
                  (mkNode "1:1" "FRAME" "Frame" [] (Some [7%nat])) [7%nat] VNull eq_refl)).
Defined.

(** ** The page, continued *)

Section PageProperties.

Import UI.

Variable JSON_parse : string -> option value.
Variable JSON_stringify : value -> string.

Lemma step_keeps_status_agrees p ev p' :
  one_attempt p -> status_agrees p ->
  step JSON_parse JSON_stringify p ev p' -> status_agrees p'.
Proof.
  intros Hinv Hagree Hstep.
  destruct Hstep as [p s Hs|p s st event failed Hs Hlive|p s st Hs Hlive|p s data Hs
                    |p data|p i delay Hi].
  - destruct (live_socket_is_current p s CONNECTING Hinv Hs) as (Hws & Hlen & _);
      [done|].
    intros s' st'. simpl. rewrite Hws. intros [= <-].
    rewrite list_lookup_insert_eq by lia. intros [= <-].
    split; [done|]. by intros [|].
  - destruct (live_socket_is_current p s st Hinv Hs Hlive) as (Hws & Hlen & _).
    destruct (closing_page p s failed Hws ltac:(lia)) as (Hws1 & _ & _ & Hs1 & _).
    cbv zeta in *.
    destruct (onclose_schedules event
                (if failed
                 then onerror (with_sockets (<[s:=CLOSED]> (sockets p)) p)
                 else with_sockets (<[s:=CLOSED]> (sockets p)) p))
      as (Hclass & _ & Hsockets & Hws').
    intros s' st'. rewrite Hws', Hsockets, Hws1, Hclass. intros [= <-].
    rewrite Hs1. intros [= <-]. split; [done|done].
  - destruct (live_socket_is_current p s st Hinv Hs Hlive) as (Hws & _).
    destruct (onerror_keeps p) as (Hws' & _ & Hclass & _ & Hsockets).
    intros s' st'. rewrite Hws', Hclass, Hsockets, Hws. intros [= <-].
    rewrite decide_True, Hs by done. simpl. intros [= <-].
    destruct st; try done; split; try done; by intros [|].
  - intros s' st'. destruct (ws_onmessage_keeps JSON_parse data p) as (-> & -> & _).
    assert (status_class (ws_onmessage JSON_parse data p) = status_class p) as ->
        by (unfold ws_onmessage; by destruct (JSON_parse data)).
    apply Hagree.
  - intros s' st'.
    destruct (window_onmessage_keeps JSON_stringify data p) as (-> & -> & _).
    assert (status_class (fst (window_onmessage JSON_stringify data p)) = status_class p)
      as ->.
    { unfold window_onmessage, ws_send. destruct data; try done.
      destruct (truthy _); [|done]. destruct (ws p) as [s0|]; [|done].
      by destruct (sockets p !! s0) as [[| | |]|]. }
    apply Hagree.
  - destruct Hinv as (s0 & st0 & Hws & Hlen & _ & Hs0 & Hcase).
    destruct Hcase as [[_ Ht]|[-> Ht]]; rewrite Ht in Hi; [done|].
    destruct (Hagree s0 CLOSED Hws Hs0) as [_ Hclass].
    intros s' st'. simpl. intros [= <-].
    rewrite lookup_app_r by lia. rewrite Nat.sub_diag. intros [= <-].
    split; [done|]. intros _. apply Hclass. by right.
Qed.

Lemma reachable_status_agrees p :
  reachable JSON_parse JSON_stringify p -> status_agrees p.
Proof.
  induction 1 as [|p ev p' Hreach IH Hstep].
  - intros s st [= <-] [= <-]. split; [done|by intros _].
  - apply (step_keeps_status_agrees p ev p'); [|done|done].
    by apply (reachable_one_attempt JSON_parse JSON_stringify).
Qed.

End PageProperties.

(** X19. There is never more than one connection: on every page the
    script reaches, [ws] is set, it is the socket created last, and a
    socket that is not closed is that socket; while a reconnect is
    pending no socket is alive at all. *)
Theorem at_most_one_live_socket (JSON_parse : string -> option value)
    (JSON_stringify : value -> string) (p : UI.Page) (i : nat) (st : UI.ReadyState) :
  UI.reachable JSON_parse JSON_stringify p ->
  UI.ws p = Some (length (UI.sockets p) - 1)%nat /\
  (length (UI.sockets p) > 0)%nat /\
  (UI.sockets p !! i = Some st -> st <> UI.CLOSED ->
   UI.ws p = Some i /\ UI.timers p = []) /\
  (UI.timers p <> [] -> UI.sockets p !! i = Some st -> st = UI.CLOSED).
Proof.
  intros Hreach. pose proof (reachable_one_attempt _ _ p Hreach) as Hinv.
  split; [|split; [|split]].
  - destruct Hinv as (s & st0 & -> & -> & _). f_equal. lia.
  - destruct Hinv as (s & st0 & _ & -> & _). lia.
  - intros Hi Hlive.
    by destruct (live_socket_is_current p i st Hinv Hi Hlive) as (? & _ & ? & _).
  - intros Hpending Hi.
    assert (st = UI.CLOSED \/ st <> UI.CLOSED) as [|Hlive]
        by (destruct st; (by left) || (by right)); [done|].
    by destruct (live_socket_is_current p i st Hinv Hi Hlive) as (_ & _ & ? & _).
Qed.

Lemma at_most_one_live_socket_witness :
  UI.ws (UI.connect UI.loaded) = Some 0%nat /\ UI.timers (UI.connect UI.loaded) = [].
Proof.
  refine (proj1 (proj2 (proj2 (at_most_one_live_socket Fixture.parse Fixture.stringify
            (UI.connect UI.loaded) 0%nat UI.CONNECTING (UI.reachable_init _ _)))) _ _).
  - reflexivity.
  - discriminate.
Defined.

(** X20. The status shown follows the socket: on every page the script
    reaches, the page shows "connected" whenever the socket in [ws] is
    open, and shows "disconnected" whenever that socket is connecting or
    closed; so a page that shows "connected" has a socket that is open or
    is being closed. *)
Theorem status_follows_the_socket (JSON_parse : string -> option value)
    (JSON_stringify : value -> string) (p : UI.Page) :
  UI.reachable JSON_parse JSON_stringify p ->
  exists s st,
    UI.ws p = Some s /\ UI.sockets p !! s = Some st /\
    (st = UI.OPEN -> UI.status_class p = "connected") /\
    (st = UI.CONNECTING \/ st = UI.CLOSED -> UI.status_class p = "disconnected") /\
    (UI.status_class p = "connected" -> st = UI.OPEN \/ st = UI.CLOSING).
Proof.
  intros Hreach.
  destruct (reachable_one_attempt _ _ p Hreach) as (s & st & Hws & _ & _ & Hs & _).
  destruct (reachable_status_agrees _ _ p Hreach s st Hws Hs) as [Hopen Hclosed].
  exists s, st. do 4 (split; [done|]).
  intros Hclass. destruct st; [|by left|by right|].
  - rewrite Hclosed in Hclass by (by left). done.
  - rewrite Hclosed in Hclass by (by right). done.
Qed.

Lemma status_follows_the_socket_witness :
  exists s st,
    UI.ws (UI.connect UI.loaded) = Some s /\
    UI.sockets (UI.connect UI.loaded) !! s = Some st /\
    (st = UI.OPEN -> UI.status_class (UI.connect UI.loaded) = "connected") /\
    (st = UI.CONNECTING \/ st = UI.CLOSED ->
     UI.status_class (UI.connect UI.loaded) = "disconnected") /\
    (UI.status_class (UI.connect UI.loaded) = "connected" ->
     st = UI.OPEN \/ st = UI.CLOSING).
Proof.
  exact (status_follows_the_socket Fixture.parse Fixture.stringify
           (UI.connect UI.loaded) (UI.reachable_init _ _)).
Defined.

(** X21. Sockets are opened by the reconnect timer alone, and one at a
    time: on a page the script has reached, the timer that fires is the
    only one pending, it found the previous socket closed, and it leaves
    exactly one socket more, connecting and held in [ws], with nothing
    pending; no other event creates a socket. *)
Theorem timer_opens_one_socket (JSON_parse : string -> option value)
    (JSON_stringify : value -> string) (p p' : UI.Page) (ev : UI.Event) :
  UI.reachable JSON_parse JSON_stringify p ->
  UI.step JSON_parse JSON_stringify p ev p' ->
  (forall i, ev = UI.TimerFired i ->
     i = 0%nat /\ UI.timers p = [3000%Z] /\
     UI.sockets p !! (length (UI.sockets p) - 1)%nat = Some UI.CLOSED /\
     UI.sockets p' = (UI.sockets p ++ [UI.CONNECTING])%list /\
     UI.ws p' = Some (length (UI.sockets p)) /\
     UI.timers p' = []) /\
  ((forall i, ev <> UI.TimerFired i) ->
   length (UI.sockets p') = length (UI.sockets p) /\ UI.ws p' = UI.ws p).
Proof.
  intros Hreach Hstep.
  pose proof (reachable_one_attempt _ _ p Hreach) as Hinv.
  destruct Hstep as [p s Hs|p s st event failed Hs Hlive|p s st Hs Hlive|p s data Hs
                    |p data|p i delay Hi].
  - split; [done|]. intros _. simpl. by rewrite length_insert.
  - split; [done|]. intros _.
    destruct (live_socket_is_current p s st Hinv Hs Hlive) as (Hws & Hlen & _).
    destruct (closing_page p s failed Hws ltac:(lia)) as (Hws1 & _ & Hlen1 & _).
    cbv zeta in *.
    destruct (onclose_schedules event
                (if failed
                 then UI.onerror (UI.with_sockets (<[s:=UI.CLOSED]> (UI.sockets p)) p)
                 else UI.with_sockets (<[s:=UI.CLOSED]> (UI.sockets p)) p))
      as (_ & _ & -> & ->).
    by rewrite Hlen1, Hws1.
  - split; [done|]. intros _.
    by destruct (onerror_keeps p) as (-> & _ & _ & -> & _).
  - split; [done|]. intros _.
    by destruct (ws_onmessage_keeps JSON_parse data p) as (-> & -> & _).
  - split; [done|]. intros _.
    by destruct (window_onmessage_keeps JSON_stringify data p) as (-> & -> & _).
  - split; [|intros Hnot; by destruct (Hnot i)].
    intros i' [= <-].
    destruct Hinv as (s0 & st0 & Hws & Hlen & _ & Hs0 & Hcase).
    destruct Hcase as [[_ Ht]|[-> Ht]]; rewrite Ht in Hi; [done|].
    destruct i as [|i]; [|done].
    split; [done|]. split; [exact Ht|].
    split; [rewrite Hlen; simpl; by rewrite Nat.sub_0_r|].
    split; [done|]. split; [done|]. simpl. by rewrite Ht.
Qed.

Lemma after_first_close_reachable parse stringify :
  UI.reachable parse stringify after_first_close.
Proof.
  apply (UI.reachable_step _ _ (UI.connect UI.loaded)
           (UI.SocketClosed 0 (UI.mkCloseEvent false 1006 "") false));
    [apply UI.reachable_init|].
  by apply (UI.step_close _ _ (UI.connect UI.loaded) 0%nat UI.CONNECTING).
Qed.

Lemma after_first_open_reachable parse stringify :
  UI.reachable parse stringify after_first_open.
Proof.
  apply (UI.reachable_step _ _ (UI.connect UI.loaded) (UI.SocketOpened 0));
    [apply UI.reachable_init|].
  by apply (UI.step_open _ _ (UI.connect UI.loaded) 0%nat).
Qed.

Lemma timer_opens_one_socket_witness :
  UI.sockets (UI.connect (UI.with_timers [] after_first_close))
    = [UI.CLOSED; UI.CONNECTING] /\
  UI.ws (UI.connect (UI.with_timers [] after_first_close)) = Some 1%nat /\
  UI.timers (UI.connect (UI.with_timers [] after_first_close)) = [].
Proof.
  pose proof (timer_opens_one_socket Fixture.parse Fixture.stringify
                after_first_close (UI.connect (UI.with_timers [] after_first_close))
                (UI.TimerFired 0)
                (after_first_close_reachable _ _)
                (UI.step_timer _ _ after_first_close 0%nat 3000%Z eq_refl)) as [H _].
  destruct (H 0%nat eq_refl) as (_ & _ & _ & Hs & Hws & Ht).
  by repeat split.
Defined.

(** X22. There is no outbound queue.  On a page the script has reached, a
    message from the plugin is handed to the socket in [ws] as it is: it
    is transmitted, once, as the JSON text of the [pluginMessage], only
    when that socket is open; when the socket is closing or closed, and
    so whenever a reconnect is pending, the message is dropped without a
    trace, and while the socket is still connecting [send] throws and the
    message is lost as well. *)
Theorem response_is_sent_only_while_open (JSON_parse : string -> option value)
    (JSON_stringify : value -> string) (p : UI.Page) (message : value) :
  UI.reachable JSON_parse JSON_stringify p ->
  truthy message = true ->
  exists s st,
    UI.ws p = Some s /\ UI.sockets p !! s = Some st /\
    (st = UI.OPEN ->
     UI.window_onmessage JSON_stringify (VObj [("pluginMessage", message)]) p =
     (UI.mkPage (UI.status_text p) (UI.status_class p) (UI.ws p) (UI.sockets p)
        (UI.timers p) (UI.console p) (UI.to_plugin p)
        (UI.sent p ++ [(s, JSON_stringify message)]), UI.Normal)) /\
    (st = UI.CLOSING \/ st = UI.CLOSED \/ UI.timers p <> [] ->
     UI.window_onmessage JSON_stringify (VObj [("pluginMessage", message)]) p =
     (p, UI.Normal)) /\
    (st = UI.CONNECTING ->
     UI.window_onmessage JSON_stringify (VObj [("pluginMessage", message)]) p =
     (p, UI.Uncaught)).
Proof.
  intros Hreach Htruthy.
  destruct (reachable_one_attempt _ _ p Hreach) as (s & st & Hws & _ & _ & Hs & Hcase).
  exists s, st. do 2 (split; [done|]).
  unfold UI.window_onmessage, UI.ws_send.
  change (get_field "pluginMessage" [("pluginMessage", message)]) with message.
  rewrite Htruthy, Hws, Hs.
  split; [by intros ->|]. split; [|by intros ->].
  intros [->|[->|Hpending]]; try done.
  destruct Hcase as [[_ Ht]|[-> _]]; done.
Qed.

Lemma response_is_sent_only_while_open_witness :
  UI.window_onmessage Fixture.stringify
    (VObj [("pluginMessage", VObj [("id", VStr "1"); ("result", VArr [])])])
    after_first_close
  = (after_first_close, UI.Normal) /\
  UI.sent (fst (UI.window_onmessage Fixture.stringify
                  (VObj [("pluginMessage", VObj [("id", VStr "1"); ("result", VArr [])])])
                  after_first_open))
  = [(0%nat, "<json>")].
Proof.
  split.
  - destruct (response_is_sent_only_while_open Fixture.parse Fixture.stringify
                after_first_close (VObj [("id", VStr "1"); ("result", VArr [])])
                (after_first_close_reachable _ _) eq_refl)
      as (s & st & _ & _ & _ & Hlost & _).
    apply Hlost. right. right. discriminate.
  - destruct (response_is_sent_only_while_open Fixture.parse Fixture.stringify
                after_first_open (VObj [("id", VStr "1"); ("result", VArr [])])
                (after_first_open_reachable _ _) eq_refl)
      as (s & st & Hws & Hs & Hopen & _).
    injection Hws as <-. injection Hs as <-. by rewrite (Hopen eq_refl).
Defined.

(** ** The bridge, continued *)

Lemma dispatch_posts_object api msg h :
  exists o,
    posted (fst (dispatch api msg h)) = (posted h ++ [VObj o])%list /\
    lookup_field "id" o = Some (get_field "id" msg).
Proof.
  unfold dispatch, try_catch, bind.
  pose proof (keeps_switch api (get_field "method" msg)
                (without_keys ["method"; "id"] msg) (command_table api)
                (fun l b => keeps_case api l b _) h) as Hkeep.
  destruct (switch _ _ _ _ h) as [h' [r|e]]; simpl in *; rewrite Hkeep; by eexists.
Qed.

(** X23. A command object that arrives on the socket is run exactly once,
    and answered on the socket if it is open: the document afterwards is
    the dispatcher's, the page has posted the parsed command to the
    plugin under [pluginMessage], and the one response, carrying the
    command's id, has been sent as JSON on the socket in [ws].  If that
    socket is closing or closed the command is run all the same and its
    response is lost. *)
Theorem command_round_trip (api : HostApi) (JSON_parse : string -> option value)
    (JSON_stringify : value -> string) (data : string) (msg : object)
    (p : UI.Page) (h : Host) (s : nat) (st : UI.ReadyState) :
  JSON_parse data = Some (VObj msg) ->
  UI.ws p = Some s -> UI.sockets p !! s = Some st ->
  exists response,
    lookup_field "id" response = Some (get_field "id" msg) /\
    posted (fst (dispatch api msg h)) = (posted h ++ [VObj response])%list /\
    snd (receive api JSON_parse JSON_stringify data (p, h)) = fst (dispatch api msg h) /\
    UI.to_plugin (fst (receive api JSON_parse JSON_stringify data (p, h)))
      = (UI.to_plugin p ++ [VObj [("pluginMessage", VObj msg)]])%list /\
    (st = UI.OPEN ->
     UI.sent (fst (receive api JSON_parse JSON_stringify data (p, h)))
       = (UI.sent p ++ [(s, JSON_stringify (VObj response))])%list) /\
    (st = UI.CLOSING \/ st = UI.CLOSED ->
     UI.sent (fst (receive api JSON_parse JSON_stringify data (p, h))) = UI.sent p).
Proof.
  intros Hparse Hws Hs.
  destruct (dispatch_posts_object api msg h) as (response & Hposted & Hid).
  exists response. do 2 (split; [done|]).
  unfold receive, UI.ws_onmessage. rewrite Hparse.
  unfold UI.post_to_parent. simpl UI.to_plugin.
  rewrite drop_app_length. simpl foldl.
  rewrite Hposted, drop_app_length. simpl foldl.
  split; [done|].
  unfold deliver_to_page, UI.window_onmessage, UI.ws_send. simpl.
  rewrite Hws, Hs.
  split; [by destruct st|]. split; [by intros ->|by intros [->| ->]].
Qed.

Lemma command_round_trip_witness :
  exists response,
    lookup_field "id" response = Some VUndef /\
    UI.sent (fst (receive Fixture.api Fixture.parse Fixture.stringify "{}"
                    (after_first_open, Fixture.empty)))
      = [(0%nat, Fixture.stringify (VObj response))].
Proof.
  destruct (command_round_trip Fixture.api Fixture.parse Fixture.stringify "{}" []
              after_first_open Fixture.empty 0%nat UI.OPEN eq_refl eq_refl eq_refl)
    as (response & Hid & _ & _ & _ & Hopen & _).
  exists response. split; [exact Hid|exact (Hopen eq_refl)].
Defined.

(** ** The projector and the export, continued *)

Lemma lookup_set_field k k' v o :
  lookup_field k (set_field k' v o) =
  if String.eqb k k' then Some v else lookup_field k o.
Proof.
  destruct (String.eqb k k') eqn:E.
  - apply String.eqb_eq in E. subst. apply lookup_set_field_same.
  - apply String.eqb_neq in E. by apply lookup_set_field_other.
Qed.

(** X24. The projection copies, it never renames or mixes up: whatever
    key a projection has, its value is the node's id, type or name for
    those three keys, and for every other key the value of the node's
    property of the same name. *)
Theorem projection_copies_values (node : Node) (k : string) (v : value) :
  lookup_field k (getNodeProperties node) = Some v ->
  (k = "id" /\ v = VStr (node_id node)) \/
  (k = "type" /\ v = VStr (node_type node)) \/
  (k = "name" /\ v = VStr (node_name node)) \/
  (~ In k ["id"; "type"; "name"] /\ v = get_field k (node_props node)).
Proof.
  unfold getNodeProperties.
  destruct (has_key "width" (node_props node) && has_key "height" (node_props node)),
    (has_key "x" (node_props node) && has_key "y" (node_props node)),
    (has_key "fills" (node_props node)), (has_key "strokes" (node_props node));
    rewrite ?lookup_set_field; cbn [lookup_field];
    assert (forall w, (if has_key "visible" (node_props node)
                       then get_field "visible" (node_props node) else VUndef) = w ->
                      w = get_field "visible" (node_props node)) as Hvisible
        by (intros w <-; unfold has_key, get_field;
            by destruct (lookup_field "visible" (node_props node)));
    assert (forall w, (if has_key "locked" (node_props node)
                       then get_field "locked" (node_props node) else VUndef) = w ->
                      w = get_field "locked" (node_props node)) as Hlocked
        by (intros w <-; unfold has_key, get_field;
            by destruct (lookup_field "locked" (node_props node)));
    repeat match goal with
           | |- context [String.eqb k ?s] =>
               let E := fresh "E" in
               destruct (String.eqb k s) eqn:E;
               [apply String.eqb_eq in E; subst k; intros [= <-];
                first [ by left
                      | right; by left
                      | do 2 right; by left
                      | do 3 right; split;
                        [simpl; intros H; repeat (destruct H as [H|H]; [discriminate H|]);
                         destruct H
                        |first [reflexivity | by apply Hvisible | by apply Hlocked]] ]
               |]
           end; done.
Qed.

Lemma projection_copies_values_witness :
  (("strokeWeight" = "id" /\ VNum 1 = VStr (node_id Fixture.rectangle)) \/
   ("strokeWeight" = "type" /\ VNum 1 = VStr (node_type Fixture.rectangle)) \/
   ("strokeWeight" = "name" /\ VNum 1 = VStr (node_name Fixture.rectangle)) \/
   (~ In "strokeWeight" ["id"; "type"; "name"] /\
    VNum 1 = get_field "strokeWeight" (node_props Fixture.rectangle))).
Proof.
  exact (projection_copies_values Fixture.rectangle "strokeWeight" (VNum 1) eq_refl).
Defined.

(** X25. [export-selection] is all or nothing.  Whatever the parameters,
    the document and the host, either it fails and the document is
    exactly as it was, or it has carried out one export, of the first
    selected node, which is of an exportable type, and nothing else has
    changed; its result then gives the exported data, the [format]
    parameter as it was sent, in the sender's spelling, and the scale
    [scale || 1]. *)
Theorem export_is_all_or_nothing (api : HostApi) (params : object) (h : Host) :
  (exists e, case_export_selection api params h = (h, Threw e)) \/
  (exists r rest settings,
     selection h = r :: rest /\
     isExportable (nodes h r) = true /\
     case_export_selection api params h =
     (log_export r settings h,
      Returned (VObj [("data", export_data api r settings h);
                      ("format", get_field "format" params);
                      ("scale", js_or (get_field "scale" params) (VNum 1))]))).
Proof.
  unfold case_export_selection, bind, read.
  destruct (selection h) as [|r rest] eqn:Hsel; [left; by eexists|].
  destruct (truthy (get_field "format" params)); simpl; [|left; by eexists].
  destruct (isExportable (nodes h r)) eqn:He; simpl; [|left; by eexists].
  destruct (get_field "format" params) as [| |b|q|f|l|o|d]; simpl;
    try (left; by eexists).
  unfold exportAsync, host_call, bind, read.
  destruct (String.eqb (toUpperCase f) "PNG"); simpl.
  { destruct (host_rejects api _ h); simpl; [left; by eexists|].
    right. by eexists r, rest, _. }
  destruct (String.eqb (toUpperCase f) "JPG"); simpl.
  { destruct (host_rejects api _ h); simpl; [left; by eexists|].
    right. by eexists r, rest, _. }
  destruct (String.eqb (toUpperCase f) "SVG"); simpl.
  { destruct (host_rejects api _ h); simpl; [left; by eexists|].
    right. by eexists r, rest, _. }
  destruct (String.eqb (toUpperCase f) "PDF"); simpl.
  { destruct (host_rejects api _ h); simpl; [left; by eexists|].
    right. by eexists r, rest, _. }
  left. by eexists.
Qed.
